(** * Accrual ledger engine: a shallow embedding of [advance_stats.py]

    The development follows the Python sources:

    - [advance.py]        the [Advance] dataclass;
    - [advance_stats.py]  the [AdvanceStats] engine (interest accrual, the
                          payment waterfall, the FIFO reduction sweep and the
                          event dispatcher).

    Conventions of the embedding.

    - Python [int] and [Decimal] values are embedded by their exact value in
      [Q].  Every [Decimal] operation is taken at its exact result, that is,
      under an arithmetic context whose precision is never exceeded; the
      rounding of [decimal]'s default context (28 significant digits) is not
      part of the model.  Comparisons ([>], [==]) are comparisons of values,
      as they are in Python.
    - A [float] is embedded by the exact rational value of its binary64
      representation; [Decimal(f)] converts a float exactly.
    - A [datetime] produced by [strptime(_, "%Y-%m-%d")] is a midnight; it is
      embedded by its proleptic Gregorian ordinal ([datetime.toordinal()]),
      so that [>] is [Z.ltb] and [(a - b).days] is a subtraction.
    - Strings are ASCII strings.
    - Methods of [AdvanceStats] are computations in a state-and-exception
      monad over the engine record: an exception leaves the state as the
      method had mutated it so far, which is what Python does. *)

From Stdlib Require Import String Ascii ZArith QArith Qround Qpower Qabs Bool Lia Lqa List.
From Equations Require Import Equations.
From Equations.Prop Require Import Logic.
Import ListNotations.

Open Scope Q_scope.
(* ===================================================================== *)
(** * Numbers *)
(* ===================================================================== *)

(** [x > y] on Python numbers. *)
Definition Qgtb (x y : Q) : bool := negb (Qle_bool x y).

(** ** Binary64 floats and the conversion of a decimal literal

    A float literal of the source denotes the binary64 number nearest to the
    decimal it spells (ties to even).  For a positive literal in the normal
    range that number is [m * 2^(e-52)] with [2^52 <= m <= 2^53], where
    [2^e <= q < 2^(e+1)]. *)
Module PyFloat.

(** Round to the nearest integer, ties to the even one. *)
Definition round_half_even (q : Q) : Z :=
  let f := Qfloor q in
  match Qcompare (q - inject_Z f) (1 # 2) with
  | Lt => f
  | Gt => (f + 1)%Z
  | Eq => if Z.even f then f else (f + 1)%Z
  end.

(** The binary exponent [e] of a positive rational: [2^e <= q < 2^(e+1)]. *)
Definition binary_exponent (q : Q) : Z :=
  let e0 := (Z.log2 (Qnum q) - Z.log2 (Zpos (Qden q)))%Z in
  if Qle_bool (2 ^ e0) q then e0 else (e0 - 1)%Z.

(** The 53-bit significand of the nearest binary64. *)
Definition significand (q : Q) : Z :=
  round_half_even (q * 2 ^ (52 - binary_exponent q)).

(** The value of the float literal spelling the positive decimal [q]. *)
Definition of_literal (q : Q) : Q :=
  inject_Z (significand q) * 2 ^ (binary_exponent q - 52).

End PyFloat.

(** [Decimal(x)] for a float [x]: the conversion is exact. *)
Definition Decimal_of_float (x : Q) : Q := x.

(* ===================================================================== *)
(** * Dates: [datetime.strptime(_, "%Y-%m-%d")] *)
(* ===================================================================== *)

Module DateTime.

(** A midnight [datetime], by its proleptic Gregorian ordinal. *)
Definition datetime := Z.

Definition is_leap (year : Z) : bool :=
  ((year mod 4 =? 0) && (negb (year mod 100 =? 0) || (year mod 400 =? 0)))%Z.

Definition days_in_month (year month : Z) : Z :=
  (if month =? 2 then (if is_leap year then 29 else 28)
   else if (month =? 4) || (month =? 6) || (month =? 9) || (month =? 11)
        then 30 else 31)%Z.

Definition days_before_year (year : Z) : Z :=
  (let y := year - 1 in y * 365 + y / 4 - y / 100 + y / 400)%Z.

Fixpoint days_before_month_aux (year : Z) (k : nat) : Z :=
  match k with
  | O => 0%Z
  | S k' => (days_before_month_aux year k' + days_in_month year (Z.of_nat k))%Z
  end.

(** Days of [year] before the first day of [month]. *)
Definition days_before_month (year month : Z) : Z :=
  days_before_month_aux year (Z.to_nat (month - 1)).

Definition ymd2ord (year month day : Z) : Z :=
  (days_before_year year + days_before_month year month + day)%Z.

(** [datetime(year, month, day)]: [None] stands for the [ValueError] of an
    out-of-range field. *)
Definition make_datetime (year month day : Z) : option datetime :=
  if ((1 <=? year) && (year <=? 9999) && (1 <=? month) && (month <=? 12)
      && (1 <=? day) && (day <=? days_in_month year month))%Z
  then Some (ymd2ord year month day) else None.

(** The ordinal of [datetime.max] (9999-12-31). *)
Definition max_ordinal : Z := 3652059%Z.

Definition is_digit (c : ascii) : bool :=
  (48 <=? nat_of_ascii c)%nat && (nat_of_ascii c <=? 57)%nat.

Definition digit (c : ascii) : Z := (Z.of_nat (nat_of_ascii c) - 48)%Z.

Definition in_range (lo hi : Z) (c : ascii) : bool :=
  is_digit c && (lo <=? digit c)%Z && (digit c <=? hi)%Z.

Definition is_dash (c : ascii) : bool := Ascii.eqb c "-"%char.
Definition is_space (c : ascii) : bool := Ascii.eqb c " "%char.

(** [%Y] is the pattern [\d\d\d\d]. *)
Definition match_year (l : list ascii) : option (Z * list ascii) :=
  match l with
  | a :: b :: c :: d :: rest =>
      if is_digit a && is_digit b && is_digit c && is_digit d
      then Some ((1000 * digit a + 100 * digit b + 10 * digit c + digit d)%Z, rest)
      else None
  | _ => None
  end.

(** [%m] is the pattern [1[0-2]|0[1-9]|[1-9]]; the literal [-] of the
    format follows it, so a one-digit month is taken exactly when the
    next character is the dash. *)
Definition match_month_dash (l : list ascii) : option (Z * list ascii) :=
  match l with
  | a :: b :: rest =>
      if (in_range 1 1 a && in_range 0 2 b) || (in_range 0 0 a && in_range 1 9 b)
      then match rest with
           | c :: rest' => if is_dash c then Some ((10 * digit a + digit b)%Z, rest')
                           else None
           | [] => None
           end
      else if in_range 1 9 a && is_dash b then Some (digit a, rest)
      else None
  | _ => None
  end.

(** [%d] is the pattern [3[0-1]|[1-2]\d|0[1-9]|[1-9]| [1-9]], the
    alternatives tried in this order; it ends the format, and whatever
    it leaves unread is "unconverted data". *)
Definition match_day (l : list ascii) : option (Z * list ascii) :=
  match l with
  | a :: b :: rest =>
      if (in_range 3 3 a && in_range 0 1 b) || (in_range 1 2 a && is_digit b)
         || (in_range 0 0 a && in_range 1 9 b)
      then Some ((10 * digit a + digit b)%Z, rest)
      else if in_range 1 9 a then Some (digit a, b :: rest)
      else if is_space a && in_range 1 9 b then Some (digit b, rest)
      else None
  | [a] => if in_range 1 9 a then Some (digit a, []) else None
  | [] => None
  end.

(** [datetime.strptime(s, "%Y-%m-%d")]; [None] stands for its
    [ValueError]. *)
Definition strptime (s : string) : option datetime :=
  match match_year (list_ascii_of_string s) with
  | Some (year, c :: l1) =>
      if is_dash c then
        match match_month_dash l1 with
        | Some (month, l2) =>
            match match_day l2 with
            | Some (day, []) => make_datetime year month day
            | _ => None
            end
        | None => None
        end
      else None
  | _ => None
  end.

(** A string written exactly as [YYYY-MM-DD]: ten characters, digits
    everywhere but for the two dashes. *)
Definition is_YYYY_MM_DD (s : string) : bool :=
  match list_ascii_of_string s with
  | [y1; y2; y3; y4; d1; m1; m2; d2; dd1; dd2] =>
      is_digit y1 && is_digit y2 && is_digit y3 && is_digit y4 && is_dash d1
      && is_digit m1 && is_digit m2 && is_dash d2 && is_digit dd1 && is_digit dd2
  | _ => false
  end.

End DateTime.
Import DateTime.

(* ===================================================================== *)
(** * [advance.py]: the Advance record *)
(* ===================================================================== *)

(** The dataclass [Advance].  [initial_amount] receives [event[2]], a Python
    [int]; [date] receives [event[3]], the date string of the event;
    [current_amount] is an [int] or a [Decimal]. *)
Record Advance := mkAdvance {
  id : Z;
  type : string;
  initial_amount : Z;
  date : string;
  current_amount : Q;
  last_modified_date : datetime
}.

Definition set_current_amount (v : Q) (a : Advance) : Advance :=
  mkAdvance (id a) (type a) (initial_amount a) (date a) v (last_modified_date a).

Definition set_last_modified_date (d : datetime) (a : Advance) : Advance :=
  mkAdvance (id a) (type a) (initial_amount a) (date a) (current_amount a) d.

(** An event row [(id, type, amount, date_created)], read by the engine as
    [event[0]], [event[1]], [event[2]] and [event[3]]. *)
Record Event := mkEvent {
  event_id : Z;
  event_type : string;
  event_amount : Z;
  event_date : string
}.

(* ===================================================================== *)
(** * [advance_stats.py]: the engine *)
(* ===================================================================== *)

(** [ADVANCE_INTEREST_RATE = Decimal(0.00035)]: the argument is a float
    literal. *)
Definition ADVANCE_INTEREST_RATE : Q :=
  Decimal_of_float (PyFloat.of_literal (35 # 100000)).

Definition PAYMENT_EVENT : string := "payment".
Definition ADVANCE_EVENT : string := "advance".

(** The fields of an [AdvanceStats] object. *)
Record AdvanceStats := mkAdvanceStats {
  overall_advance_balance : Q;
  overall_interest_payable_balance : Q;
  overall_interest_paid : Q;
  overall_payments_for_future : Q;
  advances : list Advance;
  first_not_fully_paid_advance_index : nat
}.

(** [AdvanceStats.__init__]. *)
Definition init : AdvanceStats := mkAdvanceStats 0 0 0 0 [] 0.

Definition set_overall_advance_balance (v : Q) (self : AdvanceStats) :=
  mkAdvanceStats v (overall_interest_payable_balance self) (overall_interest_paid self)
    (overall_payments_for_future self) (advances self)
    (first_not_fully_paid_advance_index self).

Definition set_overall_interest_payable_balance (v : Q) (self : AdvanceStats) :=
  mkAdvanceStats (overall_advance_balance self) v (overall_interest_paid self)
    (overall_payments_for_future self) (advances self)
    (first_not_fully_paid_advance_index self).

Definition set_overall_interest_paid (v : Q) (self : AdvanceStats) :=
  mkAdvanceStats (overall_advance_balance self) (overall_interest_payable_balance self) v
    (overall_payments_for_future self) (advances self)
    (first_not_fully_paid_advance_index self).

Definition set_overall_payments_for_future (v : Q) (self : AdvanceStats) :=
  mkAdvanceStats (overall_advance_balance self) (overall_interest_payable_balance self)
    (overall_interest_paid self) v (advances self)
    (first_not_fully_paid_advance_index self).

Definition set_advances (v : list Advance) (self : AdvanceStats) :=
  mkAdvanceStats (overall_advance_balance self) (overall_interest_payable_balance self)
    (overall_interest_paid self) (overall_payments_for_future self) v
    (first_not_fully_paid_advance_index self).

Definition set_first_not_fully_paid_advance_index (v : nat) (self : AdvanceStats) :=
  mkAdvanceStats (overall_advance_balance self) (overall_interest_payable_balance self)
    (overall_interest_paid self) (overall_payments_for_future self) (advances self) v.

(** ** The monad of methods *)

Inductive exception := ValueError | OverflowError.

Inductive outcome (A : Type) :=
| Returned (a : A)
| Raised (e : exception).
Arguments Returned {A} a.
Arguments Raised {A} e.

Definition M (A : Type) : Type := AdvanceStats -> outcome A * AdvanceStats.

Definition ret {A} (a : A) : M A := fun self => (Returned a, self).

Definition bind {A B} (c : M A) (k : A -> M B) : M B :=
  fun self =>
    match c self with
    | (Returned a, self') => k a self'
    | (Raised e, self') => (Raised e, self')
    end.

Definition raise {A} (e : exception) : M A := fun self => (Raised e, self).

(** Reading [self], and assigning to its fields. *)
Definition get_self : M AdvanceStats := fun self => (Returned self, self).
Definition update (f : AdvanceStats -> AdvanceStats) : M unit :=
  fun self => (Returned tt, f self).

(** A loop given as a state transformer that returns its last counter. *)
Definition run_loop {A} (loop : AdvanceStats -> A * AdvanceStats) : M A :=
  fun self => let (a, self') := loop self in (Returned a, self').

Notation "x <- c1 ;; c2" := (bind c1 (fun x => c2))
  (at level 61, c1 at next level, right associativity).
Notation "c1 ;; c2" := (bind c1 (fun _ => c2))
  (at level 61, right associativity).

(** The state a computation leaves, and what it returned or raised. *)
Definition exec {A} (c : M A) (self : AdvanceStats) : AdvanceStats := snd (c self).
Definition result {A} (c : M A) (self : AdvanceStats) : outcome A := fst (c self).

(** ** [get_overall_interest] *)

(** One round of the loop over [self.advances[first_not_fully_paid_advance_index:]]:
    the two [continue]s, then the accumulation. *)
Definition accrue (end_datetime : datetime) (total_interest : Q) (advance : Advance) : Q :=
  let advance_datetime := last_modified_date advance in
  let advance_amount := current_amount advance in
  if (end_datetime <? advance_datetime)%Z || Qeq_bool advance_amount 0
  then total_interest
  else
    let advance_interest_days := (end_datetime - advance_datetime)%Z in
    if (advance_interest_days =? 0)%Z then total_interest
    else total_interest
         + advance_amount * ADVANCE_INTEREST_RATE * inject_Z advance_interest_days.

Definition get_overall_interest (end_datetime : datetime) : M Q :=
  self <- get_self ;;
  let total_interest := 0 in
  ret (fold_left (accrue end_datetime)
         (skipn (first_not_fully_paid_advance_index self) (advances self))
         total_interest).

(** ** [reduce_advances] *)

(** [l[i] = x] for [i] within the list (out of range the loop below never
    writes: it has just read [l[i]]). *)
Fixpoint list_set {A} (i : nat) (x : A) (l : list A) : list A :=
  match l, i with
  | [], _ => []
  | _ :: l', O => x :: l'
  | y :: l', S i' => y :: list_set i' x l'
  end.

(** The body of the [while] loop, once [advance = self.advances[advance_index]]
    has been read: the advance is zeroed and the cursor moves on, or the
    advance is reduced by [remaining]; either way its date is reset. *)
Definition settle (event_datetime : datetime) (remaining : Q) (advance_index : nat)
    (advance : Advance) (self : AdvanceStats) : AdvanceStats :=
  if Qgtb remaining (current_amount advance) then
    let advance' := set_last_modified_date event_datetime (set_current_amount 0 advance) in
    set_first_not_fully_paid_advance_index
      (first_not_fully_paid_advance_index self + 1)
      (set_advances (list_set advance_index advance' (advances self)) self)
  else
    let advance' :=
      set_last_modified_date event_datetime
        (set_current_amount (current_amount advance - remaining) advance) in
    set_advances (list_set advance_index advance' (advances self)) self.

(** The [while remaining > 0] loop; [IndexError] is the [break].  It returns
    the final [advance_index]. *)
Equations? reduce_loop (event_datetime : datetime) (remaining : Q)
    (advance_index : nat) (self : AdvanceStats) : nat * AdvanceStats
    by wf (length (advances self) - advance_index)%nat lt :=
  reduce_loop event_datetime remaining advance_index self
    with Qgtb remaining 0 := {
    | false := (advance_index, self)
    | true with inspect (nth_error (advances self) advance_index) := {
      | exist _ None _ := (advance_index, self)
      | exist _ (Some advance) Hread :=
          let advance_amount := current_amount advance in
          let remaining_acc := remaining - advance_amount in
          reduce_loop event_datetime remaining_acc (advance_index + 1)
            (settle event_datetime remaining advance_index advance self)
      }
    }.
Proof.
  assert (Hset : forall (x : Advance) l i, length (list_set i x l) = length l).
  { intros x l. induction l as [|y l IH]; intros [|k]; simpl; auto. }
  assert (Hlen : length (advances (settle event_datetime remaining advance_index
                                     advance self)) = length (advances self)).
  { unfold settle. destruct (Qgtb remaining (current_amount advance)); simpl; apply Hset. }
  assert (advance_index < length (advances self))%nat
    by (apply nth_error_Some; congruence).
  rewrite Hlen. lia.
Qed.

(** The trailing [for advance in self.advances[advance_index:]]. *)
Definition reset_dates_from (advance_index : nat) (event_datetime : datetime)
    (self : AdvanceStats) : AdvanceStats :=
  set_advances
    (firstn advance_index (advances self)
     ++ map (set_last_modified_date event_datetime)
            (skipn advance_index (advances self)))
    self.

Definition reduce_advances (amount : Q) (event_datetime : datetime) : M unit :=
  self <- get_self ;;
  let remaining := amount in
  let advance_index := first_not_fully_paid_advance_index self in
  advance_index <- run_loop (reduce_loop event_datetime remaining advance_index) ;;
  update (reset_dates_from advance_index event_datetime).

(** ** [process_advance] *)

Definition process_advance (advance : Advance) : M unit :=
  let advance_amount_with_overall_payments_for_future := 0 in
  self <- get_self ;;
  amount <-
    (if Qgtb (overall_payments_for_future self) 0 then
       if Qgtb (overall_payments_for_future self - inject_Z (initial_amount advance)) 0
       then
         update (set_overall_payments_for_future
                   (overall_payments_for_future self - inject_Z (initial_amount advance))) ;;
         update (set_overall_advance_balance 0) ;;
         ret advance_amount_with_overall_payments_for_future
       else
         update (set_overall_advance_balance
                   (overall_advance_balance self
                    + (inject_Z (initial_amount advance) - overall_payments_for_future self))) ;;
         let advance_amount_with_overall_payments_for_future :=
           inject_Z (initial_amount advance) - overall_payments_for_future self in
         update (set_overall_payments_for_future 0) ;;
         ret advance_amount_with_overall_payments_for_future
     else
       update (set_overall_advance_balance
                 (overall_advance_balance self + inject_Z (initial_amount advance))) ;;
       ret (inject_Z (initial_amount advance))) ;;
  let advance := set_current_amount amount advance in
  self <- get_self ;;
  update (set_advances (advances self ++ [advance])).

(** ** [process_payment] *)

Definition process_payment (payment : Event) (event_datetime : datetime) : M unit :=
  let payment_amount := inject_Z (event_amount payment) in
  interest <- get_overall_interest event_datetime ;;
  update (set_overall_interest_payable_balance interest) ;;
  self <- get_self ;;
  (if Qgtb payment_amount (overall_interest_payable_balance self) then
     update (set_overall_interest_paid
               (overall_interest_paid self + overall_interest_payable_balance self))
   else
     update (set_overall_interest_paid (overall_interest_paid self + payment_amount))) ;;
  let amount_after_interest_payed :=
    payment_amount - overall_interest_payable_balance self in
  if Qgtb amount_after_interest_payed 0 then
    reduce_advances amount_after_interest_payed event_datetime ;;
    self <- get_self ;;
    let amount_after_advance_balance_payed :=
      amount_after_interest_payed - overall_advance_balance self in
    if Qgtb amount_after_advance_balance_payed 0 then
      update (set_overall_advance_balance 0) ;;
      update (set_overall_payments_for_future
                (overall_payments_for_future self + amount_after_advance_balance_payed))
    else
      update (set_overall_advance_balance
                (overall_advance_balance self - amount_after_interest_payed))
  else ret tt.

(** ** [process_event] *)

(** [datetime.strptime(s, "%Y-%m-%d")] as a computation: it raises
    [ValueError] where the parser fails. *)
Definition parse_date (s : string) : M datetime :=
  match strptime s with
  | Some d => ret d
  | None => raise ValueError
  end.

(** [Advance( *(list(event) + [0] + [event_datetime]))]. *)
Definition advance_of_event (event : Event) (event_datetime : datetime) : Advance :=
  mkAdvance (event_id event) (event_type event) (event_amount event) (event_date event)
            0 event_datetime.

Definition process_event (event : Event) (end_datetime : datetime) : M unit :=
  event_datetime <- parse_date (event_date event) ;;
  if (end_datetime <? event_datetime)%Z then ret tt
  else
    let event_type := event_type event in
    if String.eqb event_type ADVANCE_EVENT then
      process_advance (advance_of_event event event_datetime)
    else if String.eqb event_type PAYMENT_EVENT then
      process_payment event event_datetime
    else ret tt.

(** ** [get_advances_summary] *)

(** [for event in events: self.process_event(event, end_datetime)]. *)
Fixpoint process_events (events : list Event) (end_datetime : datetime) : M unit :=
  match events with
  | [] => ret tt
  | event :: events' =>
      process_event event end_datetime ;; process_events events' end_datetime
  end.

(** [end_datetime + timedelta(days=1)]: past [datetime.max] it raises
    [OverflowError]. *)
Definition next_day (d : datetime) : M datetime :=
  if (d + 1 <=? max_ordinal)%Z then ret (d + 1)%Z else raise OverflowError.

Definition get_advances_summary (events : list Event) (end_date : string)
  : M (Q * Q * Q * Q) :=
  end_datetime <- parse_date end_date ;;
  process_events events end_datetime ;;
  day_after <- next_day end_datetime ;;
  interest <- get_overall_interest day_after ;;
  update (set_overall_interest_payable_balance interest) ;;
  self <- get_self ;;
  ret (overall_advance_balance self,
       overall_interest_payable_balance self,
       overall_interest_paid self,
       overall_payments_for_future self).

(* ===================================================================== *)
(** * The methods as state transformers

    The definitions of this part are not in the source: they describe the
    state each method leaves, in a form fit for induction.  Each is proved
    equal to the method it describes ([reduce_advances_swept],
    [process_advance_spec], [process_payment_spec], [process_event_spec]). *)
(* ===================================================================== *)

(** [sweep d remaining pending] is what one call of [reduce_advances] does to
    the advances from the cursor on, as a recursion over that list: the
    advances it leaves and the number it fully paid.  The date reset of the
    trailing pass is included. *)
Fixpoint sweep (d : datetime) (remaining : Q) (pending : list Advance)
  : list Advance * nat :=
  match pending with
  | [] => ([], 0%nat)
  | advance :: rest =>
      if Qgtb remaining 0 then
        let (rest', paid) := sweep d (remaining - current_amount advance) rest in
        if Qgtb remaining (current_amount advance)
        then (set_last_modified_date d (set_current_amount 0 advance) :: rest', S paid)
        else (set_last_modified_date d
                (set_current_amount (current_amount advance - remaining) advance)
                :: rest', paid)
      else (map (set_last_modified_date d) pending, 0%nat)
  end.

(** The state [reduce_advances] leaves, in terms of [sweep]. *)
Definition swept (amount : Q) (d : datetime) (self : AdvanceStats) : AdvanceStats :=
  let i := first_not_fully_paid_advance_index self in
  let sw := sweep d amount (skipn i (advances self)) in
  mkAdvanceStats (overall_advance_balance self) (overall_interest_payable_balance self)
    (overall_interest_paid self) (overall_payments_for_future self)
    (firstn i (advances self) ++ fst sw) (i + snd sw).

(** The value [get_overall_interest] returns. *)
Definition interest_due (d : datetime) (self : AdvanceStats) : Q :=
  fold_left (accrue d)
    (skipn (first_not_fully_paid_advance_index self) (advances self)) 0.

(** The state [process_advance] leaves. *)
Definition issued (advance : Advance) (self : AdvanceStats) : AdvanceStats :=
  let credit := overall_payments_for_future self in
  let amount := inject_Z (initial_amount advance) in
  if Qgtb credit 0 then
    if Qgtb (credit - amount) 0 then
      mkAdvanceStats 0 (overall_interest_payable_balance self)
        (overall_interest_paid self) (credit - amount)
        (advances self ++ [set_current_amount 0 advance])
        (first_not_fully_paid_advance_index self)
    else
      mkAdvanceStats (overall_advance_balance self + (amount - credit))
        (overall_interest_payable_balance self) (overall_interest_paid self) 0
        (advances self ++ [set_current_amount (amount - credit) advance])
        (first_not_fully_paid_advance_index self)
  else
    mkAdvanceStats (overall_advance_balance self + amount)
      (overall_interest_payable_balance self) (overall_interest_paid self) credit
      (advances self ++ [set_current_amount amount advance])
      (first_not_fully_paid_advance_index self).

(** The state [process_payment] leaves: the interest is recomputed and
    paid first, then what is left is swept over the advances, and the
    aggregate balance and the future credit are adjusted. *)
Definition interest_settled (payment : Event) (d : datetime) (self : AdvanceStats)
  : AdvanceStats :=
  let interest := interest_due d self in
  let payment_amount := inject_Z (event_amount payment) in
  mkAdvanceStats (overall_advance_balance self) interest
    (if Qgtb payment_amount interest
     then overall_interest_paid self + interest
     else overall_interest_paid self + payment_amount)
    (overall_payments_for_future self) (advances self)
    (first_not_fully_paid_advance_index self).

Definition paid (payment : Event) (d : datetime) (self : AdvanceStats) : AdvanceStats :=
  let self1 := interest_settled payment d self in
  let amount_after_interest_payed :=
    inject_Z (event_amount payment) - interest_due d self in
  if Qgtb amount_after_interest_payed 0 then
    let self2 := swept amount_after_interest_payed d self1 in
    let surplus := amount_after_interest_payed - overall_advance_balance self in
    if Qgtb surplus 0 then
      set_overall_payments_for_future (overall_payments_for_future self + surplus)
        (set_overall_advance_balance 0 self2)
    else
      set_overall_advance_balance
        (overall_advance_balance self - amount_after_interest_payed) self2
  else self1.

(** [process_event]: the state it leaves, and when it raises. *)
Definition dispatched (event : Event) (end_datetime : datetime) (self : AdvanceStats)
  : AdvanceStats :=
  match strptime (event_date event) with
  | None => self
  | Some event_datetime =>
      if (end_datetime <? event_datetime)%Z then self
      else if String.eqb (event_type event) ADVANCE_EVENT
           then issued (advance_of_event event event_datetime) self
      else if String.eqb (event_type event) PAYMENT_EVENT
           then paid event event_datetime self
      else self
  end.

(* ===================================================================== *)
(** * Predicates on advances and on the engine state *)
(* ===================================================================== *)

(** The sum of the unpaid principal of a list of advances. *)
Definition sum_current (l : list Advance) : Q :=
  fold_right (fun a acc => current_amount a + acc) 0 l.

(** A fully paid advance. *)
Definition settled (a : Advance) : Prop := current_amount a == 0.

(** [0 <= current_amount <= initial_amount]. *)
Definition within_initial (a : Advance) : Prop :=
  0 <= current_amount a /\ current_amount a <= inject_Z (initial_amount a).

(** The cursor is within the list and every advance before it is settled. *)
Definition cursor_ok (self : AdvanceStats) : Prop :=
  (first_not_fully_paid_advance_index self <= length (advances self))%nat
  /\ Forall settled (firstn (first_not_fully_paid_advance_index self) (advances self)).

(** The future credit is never negative, and while some is banked the
    aggregate balance is zero. *)
Definition credit_ok (self : AdvanceStats) : Prop :=
  0 <= overall_payments_for_future self
  /\ (0 < overall_payments_for_future self -> overall_advance_balance self == 0).

(** Every advance is within its initial amount, and the aggregate balance
    is the sum of the unpaid principal from the cursor on. *)
Definition ledger_ok (self : AdvanceStats) : Prop :=
  Forall within_initial (advances self)
  /\ overall_advance_balance self
     == sum_current (skipn (first_not_fully_paid_advance_index self) (advances self)).

(** An event whose amount, if it is an advance, is not negative. *)
Definition amount_ok (event : Event) : Prop :=
  event_type event = ADVANCE_EVENT -> (0 <= event_amount event)%Z.

(** The three invariants together. *)
Definition consistent (self : AdvanceStats) : Prop :=
  cursor_ok self /\ credit_ok self /\ ledger_ok self.

(* ===================================================================== *)
(** * Scenarios *)
(* ===================================================================== *)

(** 2021-01-01 is day 737791; 2021-01-11 is ten days later. *)
Definition day0 : datetime := 737791%Z.
Definition day10 : datetime := 737801%Z.

Definition scenario_A : list Event :=
  [ mkEvent 1 "advance" 1000 "2021-01-01"; mkEvent 2 "payment" 1000 "2021-01-11" ].

(** An overpayment on the day of issue banks 1000 of future credit. *)
Definition scenario_overpaid : list Event :=
  [ mkEvent 1 "advance" 1000 "2021-01-01"; mkEvent 2 "payment" 2000 "2021-01-01" ].



(** Two advances, unpaid. *)
Definition two_advances : AdvanceStats :=
  exec (process_events
          [ mkEvent 1 "advance" 1000 "2021-01-01"; mkEvent 2 "advance" 500 "2021-01-01" ]
          day10) init.

(* ===================================================================== *)
(** * Quantities of the further properties *)
(* ===================================================================== *)

(** Simple interest on one advance up to the date [d]: the unpaid principal
    times the daily rate times the whole days since its
    [last_modified_date], none when that date is after [d]. *)
Definition simple_interest (d : datetime) (a : Advance) : Q :=
  current_amount a * ADVANCE_INTEREST_RATE
  * inject_Z (Z.max 0 (d - last_modified_date a)).

Definition sum_interest (d : datetime) (l : list Advance) : Q :=
  fold_right (fun a acc => simple_interest d a + acc) 0 l.

(** The date string of an event is one the parser accepts. *)
Definition parses (event : Event) : Prop := strptime (event_date event) <> None.



(** An event [process_event] does something with: its date is malformed
    (it raises), or it is dated on or before the cutoff and is an advance or
    a payment. *)
Definition effective (end_datetime : datetime) (event : Event) : bool :=
  match strptime (event_date event) with
  | None => true
  | Some event_datetime =>
      negb (end_datetime <? event_datetime)%Z
      && (String.eqb (event_type event) ADVANCE_EVENT
          || String.eqb (event_type event) PAYMENT_EVENT)
  end.

(** Two records of the same advance: the fields set at issuance agree. *)
Definition same_identity (a a' : Advance) : Prop :=
  id a' = id a /\ type a' = type a
  /\ initial_amount a' = initial_amount a /\ date a' = date a.

(** [kept R before after]: the list [after] is the list [before], advance by
    advance and in the same order, each related to itself by [R], followed
    by the advances issued since. *)
Definition kept (R : Advance -> Advance -> Prop) (before after : list Advance) : Prop :=
  exists updated issued_since,
    after = updated ++ issued_since /\ Forall2 R before updated.


(** The date interest is counted from did not move back. *)
Definition not_moved_back (a a' : Advance) : Prop :=
  (last_modified_date a <= last_modified_date a')%Z.

(** Every date of [events] parses, and the dates do not decrease, starting
    at or after [bound]. *)
Fixpoint dates_from (bound : datetime) (events : list Event) : Prop :=
  match events with
  | [] => True
  | event :: events' =>
      match strptime (event_date event) with
      | Some d => (bound <= d)%Z /\ dates_from d events'
      | None => False
      end
  end.

(** Events supplied in non-decreasing date order. *)
Definition date_ordered (events : list Event) : Prop :=
  exists bound, dates_from bound events.



(* ===================================================================== *)
(** * Comparisons of numbers *)
(* ===================================================================== *)

Lemma Qgtb_true (x y : Q) : Qgtb x y = true <-> y < x.
Proof.
  unfold Qgtb. rewrite negb_true_iff.
  split; intros H.
  - apply Qnot_le_lt. intros Hle. apply Qle_bool_iff in Hle. congruence.
  - destruct (Qle_bool x y) eqn:E; [|reflexivity].
    apply Qle_bool_iff in E. exfalso. apply (Qlt_not_le _ _ H E).
Qed.

Lemma Qgtb_false (x y : Q) : Qgtb x y = false <-> x <= y.
Proof.
  unfold Qgtb. rewrite negb_false_iff. apply Qle_bool_iff.
Qed.

Lemma Qeq_bool_false (x y : Q) : Qeq_bool x y = false <-> ~ x == y.
Proof.
  split.
  - apply Qeq_bool_neq.
  - intros H. destruct (Qeq_bool x y) eqn:E; [|reflexivity].
    apply Qeq_bool_iff in E. contradiction.
Qed.

(** The parser on a few dates. *)
Example strptime_2021_01_01 : strptime "2021-01-01" = Some 737791%Z.
Proof. reflexivity. Qed.

Example strptime_feb_30 : strptime "2021-02-30" = None.
Proof. reflexivity. Qed.

Example strptime_trailing : strptime "2021-01-011" = None.
Proof. reflexivity. Qed.

(* ===================================================================== *)
(** * Lists of advances *)
(* ===================================================================== *)

Lemma length_list_set {A} (i : nat) (x : A) (l : list A) :
  length (list_set i x l) = length l.
Proof.
  revert i. induction l as [|y l IH]; intros [|i]; simpl; auto.
Qed.

Lemma length_advances_settle d r i a self :
  length (advances (settle d r i a self)) = length (advances self).
Proof.
  unfold settle. destruct (Qgtb r (current_amount a)); simpl; apply length_list_set.
Qed.


Lemma nth_error_list_set_eq {A} (i : nat) (x : A) (l : list A) :
  (i < length l)%nat -> nth_error (list_set i x l) i = Some x.
Proof.
  revert i. induction l as [|y l IH]; intros [|i] H; simpl in *; try lia; auto.
  apply IH. lia.
Qed.

Lemma firstn_list_set {A} (i : nat) (x : A) (l : list A) :
  firstn i (list_set i x l) = firstn i l.
Proof.
  revert i. induction l as [|y l IH]; intros [|i]; simpl; auto.
  now rewrite IH.
Qed.

Lemma skipn_list_set {A} (i : nat) (x : A) (l : list A) :
  skipn (S i) (list_set i x l) = skipn (S i) l.
Proof.
  revert i. induction l as [|y l IH]; intros [|i]; simpl; auto.
  apply IH.
Qed.

Lemma skipn_nth_error {A} (i : nat) (x : A) (l : list A) :
  nth_error l i = Some x -> skipn i l = x :: skipn (S i) l.
Proof.
  revert i. induction l as [|y l IH]; intros [|i] H; simpl in *; try discriminate.
  - now inversion H.
  - now apply IH.
Qed.

Lemma firstn_S_nth_error {A} (i : nat) (x : A) (l : list A) :
  nth_error l i = Some x -> firstn (S i) l = firstn i l ++ [x].
Proof.
  revert i. induction l as [|y l IH]; intros [|i] H; simpl in *; try discriminate.
  - now inversion H.
  - f_equal. now apply IH.
Qed.

Lemma skipn_nth_error_None {A} (i : nat) (l : list A) :
  nth_error l i = None -> skipn i l = [] /\ firstn i l = l.
Proof.
  intros H. apply nth_error_None in H. split.
  - now apply skipn_all2.
  - now apply firstn_all2.
Qed.

(* ===================================================================== *)
(** * The loop of [reduce_advances] is the sweep *)
(* ===================================================================== *)

Lemma reduce_loop_step d r i self :
  reduce_loop d r i self =
  if Qgtb r 0 then
    match nth_error (advances self) i with
    | None => (i, self)
    | Some advance =>
        reduce_loop d (r - current_amount advance) (i + 1) (settle d r i advance self)
    end
  else (i, self).
Proof.
  rewrite reduce_loop_equation_1.
  destruct (Qgtb r 0); simpl; [|reflexivity].
  destruct (nth_error (advances self) i); reflexivity.
Qed.

Lemma reduce_loop_sweep d n : forall r i self,
  (length (advances self) - i = n)%nat ->
  reset_dates_from (fst (reduce_loop d r i self)) d (snd (reduce_loop d r i self)) =
  mkAdvanceStats (overall_advance_balance self) (overall_interest_payable_balance self)
    (overall_interest_paid self) (overall_payments_for_future self)
    (firstn i (advances self) ++ fst (sweep d r (skipn i (advances self))))
    (first_not_fully_paid_advance_index self
     + snd (sweep d r (skipn i (advances self)))).
Proof.
  induction n as [|n IH]; intros r i self Hn; rewrite reduce_loop_step.
  - assert (Hnone : nth_error (advances self) i = None)
      by (apply nth_error_None; lia).
    rewrite Hnone.
    destruct (skipn_nth_error_None _ _ Hnone) as [Hs Hf].
    rewrite Hs. simpl.
    destruct (Qgtb r 0); simpl; unfold reset_dates_from, set_advances; simpl;
      rewrite Hs, Nat.add_0_r; reflexivity.
  - destruct (nth_error (advances self) i) as [a|] eqn:Ha.
    2:{ apply nth_error_None in Ha. lia. }
    rewrite (skipn_nth_error _ _ _ Ha).
    cbn [sweep].
    destruct (Qgtb r 0) eqn:Hr.
    2:{ cbn [fst snd]. unfold reset_dates_from, set_advances. cbn [advances].
        rewrite (skipn_nth_error _ _ _ Ha), Nat.add_0_r. reflexivity. }
    assert (Hi : (i < length (advances self))%nat)
      by (apply nth_error_Some; congruence).
    rewrite IH by (rewrite length_advances_settle; lia).
    rewrite Nat.add_1_r.
    unfold settle.
    destruct (Qgtb r (current_amount a)) eqn:Hc; cbn [advances overall_advance_balance
      overall_interest_payable_balance overall_interest_paid overall_payments_for_future
      first_not_fully_paid_advance_index set_advances
      set_first_not_fully_paid_advance_index].
    + rewrite skipn_list_set.
      rewrite (firstn_S_nth_error _ _ _ (nth_error_list_set_eq _ _ _ Hi)), firstn_list_set.
      destruct (sweep d (r - current_amount a) (skipn (S i) (advances self))) as [rest' paid].
      cbn [fst snd]. rewrite <- app_assoc. cbn [app].
      f_equal. lia.
    + rewrite skipn_list_set.
      rewrite (firstn_S_nth_error _ _ _ (nth_error_list_set_eq _ _ _ Hi)), firstn_list_set.
      destruct (sweep d (r - current_amount a) (skipn (S i) (advances self))) as [rest' paid].
      cbn [fst snd]. rewrite <- app_assoc. cbn [app].
      reflexivity.
Qed.

Lemma reduce_advances_swept amount d self :
  reduce_advances amount d self = (Returned tt, swept amount d self).
Proof.
  unfold reduce_advances, bind, get_self, run_loop, update, swept.
  destruct (reduce_loop d amount (first_not_fully_paid_advance_index self) self)
    as [k self'] eqn:E.
  f_equal.
  pose proof (reduce_loop_sweep d _ amount (first_not_fully_paid_advance_index self)
                self eq_refl) as H.
  rewrite E in H. exact H.
Qed.

(* ===================================================================== *)
(** * Properties of the sweep *)
(* ===================================================================== *)

Lemma within_initial_nonneg a : within_initial a -> 0 <= current_amount a.
Proof. intros [H _]. exact H. Qed.

Lemma sum_current_app l1 l2 :
  sum_current (l1 ++ l2) == sum_current l1 + sum_current l2.
Proof.
  induction l1 as [|a l1 IH]; simpl; [lra|]. rewrite IH. lra.
Qed.

Lemma sum_current_settled l : Forall settled l -> sum_current l == 0.
Proof.
  induction 1 as [|a l Ha _ IH]; simpl; [lra|]. unfold settled in Ha. lra.
Qed.

Lemma sum_current_nonneg l :
  Forall (fun a => 0 <= current_amount a) l -> 0 <= sum_current l.
Proof.
  induction 1 as [|a l Ha _ IH]; simpl; lra.
Qed.


Lemma sum_current_reset d l :
  sum_current (map (set_last_modified_date d) l) = sum_current l.
Proof.
  induction l as [|a l IH]; simpl; [reflexivity|]. now rewrite IH.
Qed.

Lemma sum_current_skipn_settled n l :
  Forall settled (firstn n l) -> sum_current (skipn n l) == sum_current l.
Proof.
  intros H. rewrite <- (firstn_skipn n l) at 2.
  rewrite sum_current_app, (sum_current_settled _ H). lra.
Qed.

(** A sweep with nothing left to apply only resets the dates. *)
Lemma sweep_stopped d r l :
  Qgtb r 0 = false -> sweep d r l = (map (set_last_modified_date d) l, 0%nat).
Proof.
  intros H. destruct l as [|a l]; simpl; [reflexivity|]. now rewrite H.
Qed.

(** The advance at the head is fully paid and the walk goes on. *)
Lemma sweep_paid d r a l :
  Qgtb r 0 = true -> Qgtb r (current_amount a) = true ->
  sweep d r (a :: l) =
  (set_last_modified_date d (set_current_amount 0 a)
     :: fst (sweep d (r - current_amount a) l),
   S (snd (sweep d (r - current_amount a) l))).
Proof.
  intros H0 Ha. simpl. rewrite H0, Ha.
  now destruct (sweep d (r - current_amount a) l).
Qed.

(** The advance at the head absorbs what is left and the walk stops. *)
Lemma sweep_partial d r a l :
  Qgtb r 0 = true -> Qgtb r (current_amount a) = false ->
  sweep d r (a :: l) =
  (set_last_modified_date d (set_current_amount (current_amount a - r) a)
     :: map (set_last_modified_date d) l,
   0%nat).
Proof.
  intros H0 Ha. simpl. rewrite H0, Ha.
  rewrite sweep_stopped; [reflexivity|].
  apply Qgtb_false. apply Qgtb_false in Ha. lra.
Qed.

(** Case analysis on one step of the sweep. *)
Ltac sweep_cases d r a l :=
  let H0 := fresh "Hgo" in
  let Ha := fresh "Hpaid" in
  destruct (Qgtb r 0) eqn:H0;
  [ destruct (Qgtb r (current_amount a)) eqn:Ha;
    [ rewrite (sweep_paid d r a l H0 Ha)
    | rewrite (sweep_partial d r a l H0 Ha) ]
  | rewrite (sweep_stopped d r (a :: l) H0) ].

Lemma sweep_length d l : forall r, length (fst (sweep d r l)) = length l.
Proof.
  induction l as [|a l IH]; intros r; [reflexivity|].
  sweep_cases d r a l; cbn [fst length]; rewrite ?length_map, ?IH; reflexivity.
Qed.

Lemma sweep_paid_le d l : forall r, (snd (sweep d r l) <= length l)%nat.
Proof.
  induction l as [|a l IH]; intros r; [simpl; lia|].
  sweep_cases d r a l; cbn [snd length]; try lia.
  specialize (IH (r - current_amount a)). lia.
Qed.

(** The advances the sweep counts as fully paid are the first ones it
    leaves, and they are settled. *)
Lemma sweep_paid_settled d l : forall r,
  Forall settled (firstn (snd (sweep d r l)) (fst (sweep d r l))).
Proof.
  induction l as [|a l IH]; intros r; [constructor|].
  sweep_cases d r a l; cbn [fst snd firstn]; constructor.
  - unfold settled. simpl. lra.
  - apply IH.
Qed.

Lemma within_initial_reset d l :
  Forall within_initial l -> Forall within_initial (map (set_last_modified_date d) l).
Proof.
  induction 1 as [|a l Ha _ IH]; simpl; constructor; [exact Ha | exact IH].
Qed.

(** The sweep keeps every advance within [0, initial_amount]. *)
Lemma sweep_within_initial d l : forall r,
  Forall within_initial l -> Forall within_initial (fst (sweep d r l)).
Proof.
  induction l as [|a l IH]; intros r Hl; [constructor|].
  inversion Hl as [|? ? [Ha0 Ha1] Hl']; subst.
  sweep_cases d r a l; cbn [fst].
  - constructor; [|now apply IH].
    split; simpl; lra.
  - constructor.
    + apply Qgtb_true in Hgo. apply Qgtb_false in Hpaid. split; simpl; lra.
    + now apply within_initial_reset.
  - now apply within_initial_reset.
Qed.

(** What the sweep takes off the total: all of [r] when the advances can
    absorb it, and everything otherwise. *)
Lemma sweep_sum_absorbed d l : forall r,
  Forall (fun a => 0 <= current_amount a) l ->
  0 < r -> r <= sum_current l ->
  sum_current (fst (sweep d r l)) == sum_current l - r.
Proof.
  induction l as [|a l IH]; intros r Hl Hr Hle.
  - simpl in *. lra.
  - inversion Hl as [|? ? Ha Hl']; subst.
    assert (Hgo' : Qgtb r 0 = true) by now apply Qgtb_true.
    sweep_cases d r a l; try discriminate; cbn [fst sum_current fold_right];
      fold (sum_current l); fold (sum_current (fst (sweep d (r - current_amount a) l))).
    + apply Qgtb_true in Hpaid. simpl in Hle. fold (sum_current l) in Hle.
      rewrite IH; simpl; try lra; auto.
    + fold (sum_current (map (set_last_modified_date d) l)).
      rewrite sum_current_reset. simpl. lra.
Qed.

Lemma sweep_sum_exhausted d l : forall r,
  Forall (fun a => 0 <= current_amount a) l ->
  sum_current l < r ->
  sum_current (fst (sweep d r l)) == 0.
Proof.
  induction l as [|a l IH]; intros r Hl Hlt.
  - simpl. lra.
  - inversion Hl as [|? ? Ha Hl']; subst.
    simpl in Hlt. fold (sum_current l) in Hlt.
    pose proof (sum_current_nonneg _ Hl') as Hs.
    assert (Hgo' : Qgtb r 0 = true) by (apply Qgtb_true; lra).
    assert (Hpaid' : Qgtb r (current_amount a) = true) by (apply Qgtb_true; lra).
    rewrite (sweep_paid d r a l Hgo' Hpaid').
    cbn [fst sum_current fold_right].
    fold (sum_current (fst (sweep d (r - current_amount a) l))).
    rewrite IH; simpl; try lra; auto.
Qed.

(** Strict FIFO within the swept list: an advance is reduced only after
    every advance before it has been zeroed. *)
Lemma sweep_fifo d l : forall r i j ai' aj aj',
  (i < j)%nat ->
  nth_error l j = Some aj ->
  nth_error (fst (sweep d r l)) j = Some aj' ->
  nth_error (fst (sweep d r l)) i = Some ai' ->
  current_amount aj' < current_amount aj ->
  current_amount ai' == 0.
Proof.
  induction l as [|a l IH]; intros r i j ai' aj aj' Hij Hj.
  - destruct j; discriminate.
  - destruct j as [|j]; [lia|]. simpl in Hj.
    sweep_cases d r a l; cbn [fst]; intros Hj' Hi' Hlt.
    + destruct i as [|i]; simpl in Hi', Hj'.
      * inversion Hi'; subst. simpl. lra.
      * apply (IH (r - current_amount a) i j ai' aj aj'); auto. lia.
    + simpl in Hj'. rewrite nth_error_map, Hj in Hj'.
      inversion Hj'; subst. simpl in Hlt. lra.
    + simpl in Hj'. rewrite nth_error_map, Hj in Hj'.
      inversion Hj'; subst. simpl in Hlt. lra.
Qed.

(* ===================================================================== *)
(** * What each method does to the state *)
(* ===================================================================== *)

Lemma get_overall_interest_spec d self :
  get_overall_interest d self = (Returned (interest_due d self), self).
Proof. reflexivity. Qed.

Lemma process_advance_spec advance self :
  process_advance advance self = (Returned tt, issued advance self).
Proof.
  unfold process_advance, issued, bind, get_self, update, ret.
  destruct (Qgtb (overall_payments_for_future self) 0);
    [destruct (Qgtb (overall_payments_for_future self
                     - inject_Z (initial_amount advance)) 0)|];
    reflexivity.
Qed.

Lemma process_payment_spec payment d self :
  process_payment payment d self = (Returned tt, paid payment d self).
Proof.
  unfold process_payment, paid, bind.
  rewrite get_overall_interest_spec.
  unfold update, get_self, ret, interest_settled.
  cbn [overall_interest_payable_balance set_overall_interest_payable_balance
       overall_interest_paid].
  destruct (Qgtb (inject_Z (event_amount payment)) (interest_due d self));
    destruct (Qgtb (inject_Z (event_amount payment) - interest_due d self) 0);
    try reflexivity;
    rewrite reduce_advances_swept;
    unfold swept, set_overall_interest_paid, set_overall_interest_payable_balance;
    cbn [overall_advance_balance overall_interest_payable_balance
         overall_interest_paid overall_payments_for_future advances
         first_not_fully_paid_advance_index];
    destruct (Qgtb (inject_Z (event_amount payment) - interest_due d self
                    - overall_advance_balance self) 0);
    reflexivity.
Qed.

Lemma process_event_spec event end_datetime self :
  process_event event end_datetime self =
  (match strptime (event_date event) with
   | Some _ => Returned tt
   | None => Raised ValueError
   end, dispatched event end_datetime self).
Proof.
  unfold process_event, dispatched, bind, parse_date.
  destruct (strptime (event_date event)) as [d|]; [|reflexivity].
  unfold ret at 1.
  destruct (end_datetime <? d)%Z; [reflexivity|].
  destruct (String.eqb (event_type event) ADVANCE_EVENT).
  - apply process_advance_spec.
  - destruct (String.eqb (event_type event) PAYMENT_EVENT).
    + apply process_payment_spec.
    + reflexivity.
Qed.

Lemma exec_process_event event end_datetime self :
  exec (process_event event end_datetime) self = dispatched event end_datetime self.
Proof. unfold exec. now rewrite process_event_spec. Qed.

(** A property of the state that every event preserves holds after the
    whole loop, whether or not an event raised. *)
Lemma process_events_preserves (Inv : AdvanceStats -> Prop) (ok : Event -> Prop)
    (end_datetime : datetime) :
  (forall event self, ok event -> Inv self ->
     Inv (exec (process_event event end_datetime) self)) ->
  forall events self, Forall ok events -> Inv self ->
    Inv (exec (process_events events end_datetime) self).
Proof.
  intros Hstep events. induction events as [|event events IH]; intros self Hok Hinv.
  - exact Hinv.
  - inversion Hok as [|? ? Hev Hrest]; subst.
    specialize (Hstep event self Hev Hinv).
    unfold exec in *. cbn [process_events]. unfold bind.
    destruct (process_event event end_datetime self) as [[[]|e] self'].
    + apply IH; assumption.
    + exact Hstep.
Qed.

(* ===================================================================== *)
(** * Invariants of the engine state *)
(* ===================================================================== *)

Lemma cursor_ok_init : cursor_ok init.
Proof. split; simpl; [lia | constructor]. Qed.

Lemma credit_ok_init : credit_ok init.
Proof. split; simpl; lra. Qed.

Lemma ledger_ok_init : ledger_ok init.
Proof. split; simpl; [constructor | lra]. Qed.

(** *** The cursor *)

Lemma swept_cursor_ok r d self : cursor_ok self -> cursor_ok (swept r d self).
Proof.
  intros [Hle Hset]. unfold cursor_ok, swept. cbn [advances first_not_fully_paid_advance_index].
  set (i := first_not_fully_paid_advance_index self) in *.
  set (sw := sweep d r (skipn i (advances self))).
  assert (Hlen : length (firstn i (advances self)) = i) by (apply firstn_length_le; exact Hle).
  split.
  - rewrite length_app, Hlen. unfold sw. rewrite sweep_length, length_skipn.
    pose proof (sweep_paid_le d (skipn i (advances self)) r) as Hp.
    rewrite length_skipn in Hp. lia.
  - rewrite <- Hlen at 1. rewrite firstn_app_2.
    apply Forall_app. split; [exact Hset | apply sweep_paid_settled].
Qed.

Lemma issued_cursor_ok a self : cursor_ok self -> cursor_ok (issued a self).
Proof.
  intros [Hle Hset]. unfold cursor_ok, issued.
  destruct (Qgtb (overall_payments_for_future self) 0);
    [destruct (Qgtb (overall_payments_for_future self - inject_Z (initial_amount a)) 0)|];
    cbn [advances first_not_fully_paid_advance_index];
    (split; [rewrite length_app; simpl; lia
            | rewrite firstn_app;
              replace (first_not_fully_paid_advance_index self - length (advances self))%nat
                with 0%nat by lia;
              simpl; rewrite app_nil_r; exact Hset]).
Qed.

Lemma paid_cursor_ok p d self : cursor_ok self -> cursor_ok (paid p d self).
Proof.
  intros H. unfold paid.
  assert (H1 : cursor_ok (interest_settled p d self)) by exact H.
  destruct (Qgtb (inject_Z (event_amount p) - interest_due d self) 0); [|exact H1].
  pose proof (swept_cursor_ok (inject_Z (event_amount p) - interest_due d self) d _ H1) as H2.
  destruct (Qgtb (inject_Z (event_amount p) - interest_due d self
                  - overall_advance_balance self) 0); exact H2.
Qed.

Lemma dispatched_cursor_ok event end_datetime self :
  cursor_ok self -> cursor_ok (dispatched event end_datetime self).
Proof.
  intros H. unfold dispatched.
  destruct (strptime (event_date event)) as [d|]; [|exact H].
  destruct (end_datetime <? d)%Z; [exact H|].
  destruct (String.eqb (event_type event) ADVANCE_EVENT); [now apply issued_cursor_ok|].
  destruct (String.eqb (event_type event) PAYMENT_EVENT); [now apply paid_cursor_ok|].
  exact H.
Qed.

(** *** The future credit *)

Lemma issued_credit_ok a self : credit_ok self -> credit_ok (issued a self).
Proof.
  intros [H0 HB]. unfold credit_ok, issued.
  destruct (Qgtb (overall_payments_for_future self) 0) eqn:Hc;
    [destruct (Qgtb (overall_payments_for_future self - inject_Z (initial_amount a)) 0) eqn:Hd|];
    cbn [overall_payments_for_future overall_advance_balance].
  - apply Qgtb_true in Hd. split; intros; lra.
  - split; intros; lra.
  - apply Qgtb_false in Hc. split; [exact H0 | intros; lra].
Qed.

Lemma paid_credit_ok p d self : credit_ok self -> credit_ok (paid p d self).
Proof.
  intros [H0 HB]. unfold credit_ok, paid.
  destruct (Qgtb (inject_Z (event_amount p) - interest_due d self) 0) eqn:Hr.
  - apply Qgtb_true in Hr.
    destruct (Qgtb (inject_Z (event_amount p) - interest_due d self
                    - overall_advance_balance self) 0) eqn:Hs;
      cbn [swept interest_settled set_overall_payments_for_future
           set_overall_advance_balance overall_payments_for_future
           overall_advance_balance].
    + apply Qgtb_true in Hs. split; intros; lra.
    + apply Qgtb_false in Hs. split; [exact H0|].
      intros HF. specialize (HB HF). lra.
  - cbn [interest_settled overall_payments_for_future overall_advance_balance].
    split; assumption.
Qed.

Lemma dispatched_credit_ok event end_datetime self :
  credit_ok self -> credit_ok (dispatched event end_datetime self).
Proof.
  intros H. unfold dispatched.
  destruct (strptime (event_date event)) as [d|]; [|exact H].
  destruct (end_datetime <? d)%Z; [exact H|].
  destruct (String.eqb (event_type event) ADVANCE_EVENT); [now apply issued_credit_ok|].
  destruct (String.eqb (event_type event) PAYMENT_EVENT); [now apply paid_credit_ok|].
  exact H.
Qed.

(** *** The ledger *)

Lemma Forall_take {A} (P : A -> Prop) n (l : list A) : Forall P l -> Forall P (firstn n l).
Proof.
  intros H. rewrite <- (firstn_skipn n l) in H. apply Forall_app in H. tauto.
Qed.

Lemma Forall_drop {A} (P : A -> Prop) n (l : list A) : Forall P l -> Forall P (skipn n l).
Proof.
  intros H. rewrite <- (firstn_skipn n l) in H. apply Forall_app in H. tauto.
Qed.

Lemma Forall_within_initial_nonneg l :
  Forall within_initial l -> Forall (fun a => 0 <= current_amount a) l.
Proof.
  intros H. eapply Forall_impl; [|exact H]. intros a [Ha _]. exact Ha.
Qed.

Lemma issued_ledger_ok a self :
  (0 <= initial_amount a)%Z ->
  cursor_ok self -> credit_ok self -> ledger_ok self -> ledger_ok (issued a self).
Proof.
  intros Ha [Hle Hset] [HF HFB] [Hin Hsum].
  rewrite Zle_Qle in Ha. change (inject_Z 0) with 0 in Ha.
  assert (Hskip : forall x,
    sum_current (skipn (first_not_fully_paid_advance_index self) (advances self ++ [x]))
    == sum_current (skipn (first_not_fully_paid_advance_index self) (advances self))
       + current_amount x).
  { intros x. rewrite skipn_app.
    replace (first_not_fully_paid_advance_index self - length (advances self))%nat
      with 0%nat by lia.
    rewrite sum_current_app. simpl. lra. }
  unfold ledger_ok, issued.
  destruct (Qgtb (overall_payments_for_future self) 0) eqn:Hc;
    [destruct (Qgtb (overall_payments_for_future self - inject_Z (initial_amount a)) 0) eqn:Hd|];
    cbn [advances first_not_fully_paid_advance_index overall_advance_balance];
    (split; [apply Forall_app; split; [exact Hin | constructor; [|constructor]] | rewrite Hskip]).
  - split; simpl; lra.
  - apply Qgtb_true in Hc. specialize (HFB Hc). simpl. lra.
  - apply Qgtb_true in Hc. apply Qgtb_false in Hd. split; simpl; lra.
  - simpl. lra.
  - split; simpl; lra.
  - simpl. lra.
Qed.

Lemma swept_ledger r d self :
  cursor_ok self -> ledger_ok self ->
  Forall within_initial (advances (swept r d self))
  /\ sum_current (skipn (first_not_fully_paid_advance_index (swept r d self))
                    (advances (swept r d self)))
     == sum_current (fst (sweep d r (skipn (first_not_fully_paid_advance_index self)
                                       (advances self)))).
Proof.
  intros [Hle Hset] [Hin Hsum].
  unfold swept. cbn [advances first_not_fully_paid_advance_index].
  set (i := first_not_fully_paid_advance_index self) in *.
  assert (Hlen : length (firstn i (advances self)) = i) by (apply firstn_length_le; exact Hle).
  split.
  - apply Forall_app. split.
    + now apply Forall_take.
    + apply sweep_within_initial. now apply Forall_drop.
  - rewrite skipn_app, Hlen.
    replace (i + snd (sweep d r (skipn i (advances self))) - i)%nat
      with (snd (sweep d r (skipn i (advances self)))) by lia.
    rewrite skipn_all2 by lia. cbn [app].
    apply sum_current_skipn_settled. apply sweep_paid_settled.
Qed.

Lemma paid_ledger_ok p d self :
  cursor_ok self -> ledger_ok self -> ledger_ok (paid p d self).
Proof.
  intros Hc Hl. unfold paid.
  assert (Hc1 : cursor_ok (interest_settled p d self)) by exact Hc.
  assert (Hl1 : ledger_ok (interest_settled p d self)) by exact Hl.
  set (r := inject_Z (event_amount p) - interest_due d self).
  destruct (Qgtb r 0) eqn:Hr; [|exact Hl1].
  apply Qgtb_true in Hr.
  destruct (swept_ledger r d _ Hc1 Hl1) as [Hin' Hsum'].
  destruct Hl as [Hin Hsum].
  cbn [interest_settled advances first_not_fully_paid_advance_index] in Hsum'.
  assert (Hnn : Forall (fun a => 0 <= current_amount a)
                  (skipn (first_not_fully_paid_advance_index self) (advances self)))
    by (apply Forall_within_initial_nonneg, Forall_drop, Hin).
  destruct (Qgtb (r - overall_advance_balance self) 0) eqn:Hs; unfold ledger_ok;
    cbn [set_overall_payments_for_future set_overall_advance_balance advances
         first_not_fully_paid_advance_index overall_advance_balance];
    (split; [exact Hin'|]); rewrite Hsum'.
  - apply Qgtb_true in Hs. rewrite sweep_sum_exhausted; [lra | exact Hnn | lra].
  - apply Qgtb_false in Hs. rewrite sweep_sum_absorbed; [lra | exact Hnn | lra | lra].
Qed.

Lemma dispatched_consistent event end_datetime self :
  amount_ok event -> consistent self -> consistent (dispatched event end_datetime self).
Proof.
  intros Hok (Hc & Hf & Hl).
  split; [now apply dispatched_cursor_ok | split; [now apply dispatched_credit_ok|]].
  unfold dispatched.
  destruct (strptime (event_date event)) as [d|]; [|exact Hl].
  destruct (end_datetime <? d)%Z; [exact Hl|].
  destruct (String.eqb (event_type event) ADVANCE_EVENT) eqn:Ht.
  - apply String.eqb_eq in Ht. apply issued_ledger_ok; auto.
  - destruct (String.eqb (event_type event) PAYMENT_EVENT); [|exact Hl].
    now apply paid_ledger_ok.
Qed.

Lemma consistent_init : consistent init.
Proof. split; [apply cursor_ok_init | split; [apply credit_ok_init | apply ledger_ok_init]]. Qed.

(** Every state the event loop reaches is consistent. *)
Lemma process_events_consistent events end_datetime :
  Forall amount_ok events ->
  consistent (exec (process_events events end_datetime) init).
Proof.
  intros Hok.
  apply (process_events_preserves consistent amount_ok end_datetime); auto.
  - intros event self He Hs. rewrite exec_process_event.
    now apply dispatched_consistent.
  - apply consistent_init.
Qed.

Lemma process_events_cursor_credit events end_datetime :
  cursor_ok (exec (process_events events end_datetime) init)
  /\ credit_ok (exec (process_events events end_datetime) init).
Proof.
  apply (process_events_preserves (fun s => cursor_ok s /\ credit_ok s)
           (fun _ => True) end_datetime).
  - intros event self _ [Hc Hf]. rewrite exec_process_event.
    split; [now apply dispatched_cursor_ok | now apply dispatched_credit_ok].
  - apply Forall_forall. intros; exact I.
  - split; [apply cursor_ok_init | apply credit_ok_init].
Qed.

(* ===================================================================== *)
(** * The interest rate constant *)
(* ===================================================================== *)

(** The float [0.00035] is [0x1.6f0068db8bac7p-12]. *)
Lemma ADVANCE_INTEREST_RATE_value :
  ADVANCE_INTEREST_RATE == 6456360425798343 # 18446744073709551616.
Proof. vm_compute. reflexivity. Qed.

(** It is a binary64 number (a 53-bit significand scaled by [2^-64]) and
    lies within half a unit in the last place of the decimal [0.00035]:
    it is the float the literal denotes. *)
Lemma ADVANCE_INTEREST_RATE_nearest :
  (2 ^ 52 <= PyFloat.significand (35 # 100000) < 2 ^ 53)%Z
  /\ PyFloat.binary_exponent (35 # 100000) = (-12)%Z
  /\ Qabs (ADVANCE_INTEREST_RATE - (35 # 100000)) < 1 # (2 ^ 65).
Proof. vm_compute. repeat split; intros; discriminate. Qed.

Lemma ADVANCE_INTEREST_RATE_bounds :
  (34999 # 100000000) < ADVANCE_INTEREST_RATE /\ ADVANCE_INTEREST_RATE < (35 # 100000).
Proof. rewrite ADVANCE_INTEREST_RATE_value. split; reflexivity. Qed.

(* ===================================================================== *)
(** * The claims *)
(* ===================================================================== *)

Lemma amount_ok_scenario_A : Forall amount_ok scenario_A.
Proof. repeat constructor; unfold amount_ok; simpl; intros; lia. Defined.

Lemma amount_ok_scenario_overpaid : Forall amount_ok scenario_overpaid.
Proof. repeat constructor; unfold amount_ok; simpl; intros; lia. Defined.

(** ** C1: scenario A *)




(** ** C2: the aggregate balance and the advances *)




(** ** C3: an advance covered by the future credit *)




(** ** C4: the rate constant *)

(** C4.  The claim is that the daily rate is exactly the decimal 0.00035,
    that is 7/20000, so that accrued interest is exact decimal arithmetic.
    The constant is built from a float literal, [Decimal(0.00035)], and is
    the binary64 number next to 0.00035 instead: it differs from 7/20000,
    and the interest on 1000 over ten days is below 3.5. *)
Theorem interest_rate_is_not_the_decimal :
  ~ ADVANCE_INTEREST_RATE == 7 # 20000
  /\ exists interest,
       result (get_overall_interest day10)
         (exec (process_event (mkEvent 1 "advance" 1000 "2021-01-01") day10) init)
       = Returned interest
       /\ interest == 1000 * ADVANCE_INTEREST_RATE * 10
       /\ interest < 7 # 2.
Proof.
  split.
  - rewrite ADVANCE_INTEREST_RATE_value. intros H. vm_compute in H. discriminate.
  - eexists. split; [reflexivity|].
    rewrite exec_process_event.
    change (dispatched (mkEvent 1 "advance" 1000 "2021-01-01") day10 init)
      with (mkAdvanceStats (0 + 1000) 0 0 0
              [mkAdvance 1 "advance" 1000 "2021-01-01" 1000 day0] 0).
    unfold interest_due.
    cbn [skipn fold_left advances first_not_fully_paid_advance_index]. unfold accrue.
    cbn [last_modified_date current_amount].
    change ((day10 <? day0)%Z || Qeq_bool 1000 0) with false.
    change ((day10 - day0 =? 0)%Z) with false.
    change (inject_Z (day10 - day0)) with 10.
    cbv iota.
    destruct ADVANCE_INTEREST_RATE_bounds as [_ Hub].
    split; lra.
Qed.

(** ** C5: strict FIFO settlement *)

(** On a state whose advances before the cursor are settled, a later
    advance is reduced only if every earlier one is at zero afterwards. *)
Lemma reduce_advances_fifo_from_cursor (self : AdvanceStats) (amount : Q) (d : datetime)
    (i j : nat) (ai' aj aj' : Advance) :
  cursor_ok self ->
  (i < j)%nat ->
  nth_error (advances self) j = Some aj ->
  nth_error (advances (exec (reduce_advances amount d) self)) j = Some aj' ->
  nth_error (advances (exec (reduce_advances amount d) self)) i = Some ai' ->
  current_amount aj' < current_amount aj ->
  current_amount ai' == 0.
Proof.
  intros [Hle Hset] Hij Hj.
  unfold exec. rewrite reduce_advances_swept. cbn [snd swept advances].
  set (m := first_not_fully_paid_advance_index self) in *.
  assert (Hlen : length (firstn m (advances self)) = m)
    by (apply firstn_length_le; exact Hle).
  intros Hj' Hi' Hlt.
  destruct (Nat.ltb j m) eqn:Hjm.
  - apply Nat.ltb_lt in Hjm.
    rewrite nth_error_app1, nth_error_firstn in Hj' by lia.
    apply Nat.ltb_lt in Hjm. rewrite Hjm, Hj in Hj'. inversion Hj'; subst.
    exfalso. apply (Qlt_irrefl _ Hlt).
  - apply Nat.ltb_ge in Hjm.
    rewrite nth_error_app2, Hlen in Hj' by lia.
    assert (Hj0 : nth_error (skipn m (advances self)) (j - m) = Some aj).
    { rewrite nth_error_skipn. replace (m + (j - m))%nat with j by lia. exact Hj. }
    destruct (Nat.ltb i m) eqn:Him.
    + apply Nat.ltb_lt in Him.
      rewrite nth_error_app1 in Hi' by lia.
      apply nth_error_In in Hi'.
      rewrite Forall_forall in Hset. exact (Hset _ Hi').
    + apply Nat.ltb_ge in Him.
      rewrite nth_error_app2, Hlen in Hi' by lia.
      apply (sweep_fifo d (skipn m (advances self)) amount (i - m) (j - m) ai' aj aj');
        auto. lia.
Qed.

(** C5.  [reduce_advances] is called by [process_payment] only, on the
    state the event loop has reached with the interest fields updated.  In
    every such call, whatever the amount applied, an advance [j] issued
    after an advance [i] is reduced only if [i] is at zero after the call. *)
Theorem reduce_advances_fifo (events : list Event) (end_datetime : datetime)
    (payment : Event) (event_datetime : datetime) (amount : Q)
    (i j : nat) (ai' aj aj' : Advance) :
  let self :=
    interest_settled payment event_datetime
      (exec (process_events events end_datetime) init) in
  let self' := exec (reduce_advances amount event_datetime) self in
  (i < j)%nat ->
  nth_error (advances self) j = Some aj ->
  nth_error (advances self') j = Some aj' ->
  nth_error (advances self') i = Some ai' ->
  current_amount aj' < current_amount aj ->
  current_amount ai' == 0.
Proof.
  intros self self'.
  apply reduce_advances_fifo_from_cursor.
  exact (proj1 (process_events_cursor_credit events end_datetime)).
Qed.

Lemma reduce_advances_fifo_witness :
  current_amount (mkAdvance 1 "advance" 1000 "2021-01-01" 0 day10) == 0.
Proof.
  apply (reduce_advances_fifo
           [ mkEvent 1 "advance" 1000 "2021-01-01"; mkEvent 2 "advance" 500 "2021-01-01" ]
           day10 (mkEvent 3 "payment" 1200 "2021-01-11") day10 1200 0 1
           (mkAdvance 1 "advance" 1000 "2021-01-01" 0 day10)
           (mkAdvance 2 "advance" 500 "2021-01-01" 500 day0)
           (mkAdvance 2 "advance" 500 "2021-01-01" (500 - (1200 - 1000)) day10)).
  - lia.
  - reflexivity.
  - reflexivity.
  - reflexivity.
  - reflexivity.
Defined.

(** ** C6: every advance stays within its initial amount *)




(** ** C7: the accrual calculator is read-only *)

(** C7.  [get_overall_interest] leaves the engine exactly as it found it
    (the advances with their dates and amounts, the cursor and the four
    totals) and only returns the accrued interest. *)
Theorem get_overall_interest_read_only (as_of : datetime) (self : AdvanceStats) :
  exec (get_overall_interest as_of) self = self
  /\ result (get_overall_interest as_of) self = Returned (interest_due as_of self).
Proof.
  unfold get_overall_interest, exec, result, bind, get_self, ret.
  split; reflexivity.
Qed.

(** ** C8: the cutoff boundary *)

(** C8.  An event dated on the cutoff date is routed by its kind; an event
    dated after it is dropped and the state is unchanged. *)
Theorem cutoff_boundary (event : Event) (end_datetime event_datetime : datetime)
    (self : AdvanceStats) :
  strptime (event_date event) = Some event_datetime ->
  (event_datetime = end_datetime ->
     process_event event end_datetime self =
     if String.eqb (event_type event) ADVANCE_EVENT
     then process_advance (advance_of_event event event_datetime) self
     else if String.eqb (event_type event) PAYMENT_EVENT
          then process_payment event event_datetime self
          else (Returned tt, self))
  /\ ((end_datetime < event_datetime)%Z ->
        process_event event end_datetime self = (Returned tt, self)).
Proof.
  intros Hparse. rewrite process_event_spec. unfold dispatched. rewrite Hparse.
  split.
  - intros ->. rewrite Z.ltb_irrefl.
    destruct (String.eqb (event_type event) ADVANCE_EVENT);
      [now rewrite process_advance_spec|].
    destruct (String.eqb (event_type event) PAYMENT_EVENT);
      [now rewrite process_payment_spec | reflexivity].
  - intros Hlt. apply Z.ltb_lt in Hlt. rewrite Hlt. reflexivity.
Qed.

Lemma cutoff_boundary_witness :
  process_event (mkEvent 1 "advance" 1000 "2021-01-01") day0 init
  = process_advance (advance_of_event (mkEvent 1 "advance" 1000 "2021-01-01") day0) init
  /\ process_event (mkEvent 1 "advance" 1000 "2021-01-11") day0 init = (Returned tt, init).
Proof.
  split.
  - apply (cutoff_boundary (mkEvent 1 "advance" 1000 "2021-01-01") day0 day0 init);
      reflexivity.
  - apply (cutoff_boundary (mkEvent 1 "advance" 1000 "2021-01-11") day0 day10 init);
      reflexivity.
Defined.

(** The event on the cutoff date does change the state. *)
Example event_on_cutoff_is_processed :
  length (advances (exec (process_event (mkEvent 1 "advance" 1000 "2021-01-01") day0) init))
  = 1%nat.
Proof. reflexivity. Qed.

(** ** C9: malformed dates *)

(** C9 as stated fails: the date [2021-1-5] is not written as YYYY-MM-DD,
    yet [strptime] reads it (the 5th of January) and the event is
    processed. *)
Lemma lenient_date_is_processed :
  is_YYYY_MM_DD "2021-1-5" = false
  /\ result (process_event (mkEvent 1 "advance" 100 "2021-1-5") day10) init = Returned tt
  /\ advances (exec (process_event (mkEvent 1 "advance" 100 "2021-1-5") day10) init)
     = [mkAdvance 1 "advance" 100 "2021-1-5" 100 737795%Z].
Proof. repeat split. Qed.

(** C9, amended.  When [strptime] rejects the date string of an event,
    [process_event] raises the [ValueError] and the state is unchanged. *)
Theorem rejected_date_raises (event : Event) (end_datetime : datetime)
    (self : AdvanceStats) :
  strptime (event_date event) = None ->
  process_event event end_datetime self = (Raised ValueError, self).
Proof.
  intros Hparse. unfold process_event, parse_date, bind. rewrite Hparse. reflexivity.
Qed.

Lemma rejected_date_raises_witness :
  process_event (mkEvent 1 "advance" 100 "2021-02-30") day10 two_advances
  = (Raised ValueError, two_advances).
Proof.
  apply (rejected_date_raises (mkEvent 1 "advance" 100 "2021-02-30") day10 two_advances).
  reflexivity.
Defined.

(** ** C10: future credit and principal exclude each other *)




(* ===================================================================== *)
(** * Further properties of the engine *)
(* ===================================================================== *)

(** ** The accrual calculator *)

Lemma accrue_simple_interest d total a :
  accrue d total a == total + simple_interest d a.
Proof.
  unfold accrue, simple_interest.
  destruct (d <? last_modified_date a)%Z eqn:Hlate; cbn [orb].
  - apply Z.ltb_lt in Hlate.
    rewrite Z.max_l by lia. change (inject_Z 0) with 0. ring.
  - apply Z.ltb_ge in Hlate.
    destruct (Qeq_bool (current_amount a) 0) eqn:Hzero.
    + apply Qeq_bool_iff in Hzero. rewrite Hzero. ring.
    + destruct (d - last_modified_date a =? 0)%Z eqn:Hday.
      * apply Z.eqb_eq in Hday. rewrite Hday. cbn [Z.max Z.compare].
        change (inject_Z 0) with 0. ring.
      * rewrite Z.max_r by lia. reflexivity.
Qed.

Lemma fold_accrue_sum_interest d l : forall total,
  fold_left (accrue d) l total == total + sum_interest d l.
Proof.
  induction l as [|a l IH]; intros total; simpl.
  - ring.
  - rewrite IH. unfold sum_interest.
    rewrite accrue_simple_interest. ring.
Qed.


Lemma ADVANCE_INTEREST_RATE_pos : 0 < ADVANCE_INTEREST_RATE.
Proof. destruct ADVANCE_INTEREST_RATE_bounds as [H _]. lra. Qed.

Lemma days_nonneg d a : 0 <= inject_Z (Z.max 0 (d - last_modified_date a)).
Proof.
  change 0 with (inject_Z 0). rewrite <- Zle_Qle. lia.
Qed.

Lemma simple_interest_nonneg d a : 0 <= current_amount a -> 0 <= simple_interest d a.
Proof.
  intros Ha. unfold simple_interest.
  apply Qmult_le_0_compat; [apply Qmult_le_0_compat|apply days_nonneg].
  - exact Ha.
  - apply Qlt_le_weak, ADVANCE_INTEREST_RATE_pos.
Qed.

Lemma simple_interest_mono d1 d2 a :
  (d1 <= d2)%Z -> 0 <= current_amount a -> simple_interest d1 a <= simple_interest d2 a.
Proof.
  intros Hd Ha. unfold simple_interest.
  rewrite !(Qmult_comm (current_amount a * ADVANCE_INTEREST_RATE)).
  apply Qmult_le_compat_r.
  - rewrite <- Zle_Qle. lia.
  - apply Qmult_le_0_compat; [exact Ha | apply Qlt_le_weak, ADVANCE_INTEREST_RATE_pos].
Qed.

Lemma sum_interest_nonneg d l :
  Forall (fun a => 0 <= current_amount a) l -> 0 <= sum_interest d l.
Proof.
  induction 1 as [|a l Ha _ IH]; simpl; [lra|].
  pose proof (simple_interest_nonneg d a Ha). lra.
Qed.

Lemma sum_interest_mono d1 d2 l :
  (d1 <= d2)%Z -> Forall (fun a => 0 <= current_amount a) l ->
  sum_interest d1 l <= sum_interest d2 l.
Proof.
  intros Hd. induction 1 as [|a l Ha _ IH]; simpl; [lra|].
  pose proof (simple_interest_mono d1 d2 a Hd Ha). lra.
Qed.

Lemma interest_due_sum_interest d self :
  interest_due d self
  == sum_interest d (skipn (first_not_fully_paid_advance_index self) (advances self)).
Proof. unfold interest_due. rewrite fold_accrue_sum_interest. ring. Qed.

Lemma consistent_pending_nonneg self :
  consistent self ->
  Forall (fun a => 0 <= current_amount a)
    (skipn (first_not_fully_paid_advance_index self) (advances self)).
Proof.
  intros (_ & _ & [Hin _]). apply Forall_within_initial_nonneg, Forall_drop, Hin.
Qed.

(** X2.  After any events whose advances have amounts that are not
    negative, the interest [get_overall_interest] returns is not negative
    and does not decrease when the date asked moves forward. *)
Theorem interest_nonneg_and_monotone (events : list Event) (end_datetime : datetime)
    (d1 d2 : datetime) :
  Forall amount_ok events ->
  (d1 <= d2)%Z ->
  exists i1 i2,
    result (get_overall_interest d1) (exec (process_events events end_datetime) init)
      = Returned i1
    /\ result (get_overall_interest d2) (exec (process_events events end_datetime) init)
       = Returned i2
    /\ 0 <= i1 /\ i1 <= i2.
Proof.
  intros Hok Hd.
  pose proof (consistent_pending_nonneg _ (process_events_consistent events end_datetime Hok))
    as Hnn.
  exists (interest_due d1 (exec (process_events events end_datetime) init)),
         (interest_due d2 (exec (process_events events end_datetime) init)).
  split; [reflexivity|]. split; [reflexivity|].
  rewrite !interest_due_sum_interest. split.
  - now apply sum_interest_nonneg.
  - now apply sum_interest_mono.
Qed.

Lemma interest_nonneg_and_monotone_witness :
  exists i1 i2,
    result (get_overall_interest day0) (exec (process_events scenario_A day10) init)
      = Returned i1
    /\ result (get_overall_interest day10) (exec (process_events scenario_A day10) init)
       = Returned i2
    /\ 0 <= i1 /\ i1 <= i2.
Proof.
  apply (interest_nonneg_and_monotone scenario_A day10 day0 day10).
  - exact amount_ok_scenario_A.
  - unfold day0, day10. lia.
Defined.

(** ** The payment waterfall *)



(** X4.  In a state reached by events whose advances have amounts that are
    not negative, a payment of an amount that is not negative never
    decreases the interest paid or the future credit, and never increases
    the outstanding total. *)
Theorem payment_monotone (events : list Event) (end_datetime : datetime)
    (payment : Event) (d : datetime) :
  Forall amount_ok events ->
  (0 <= event_amount payment)%Z ->
  let self := exec (process_events events end_datetime) init in
  let self' := exec (process_payment payment d) self in
  overall_interest_paid self <= overall_interest_paid self'
  /\ overall_payments_for_future self <= overall_payments_for_future self'
  /\ overall_advance_balance self' <= overall_advance_balance self.
Proof.
  intros Hok Hamount self self'.
  pose proof (process_events_consistent events end_datetime Hok) as Hcons.
  fold self in Hcons.
  pose proof (consistent_pending_nonneg _ Hcons) as Hnn.
  destruct Hcons as (_ & _ & [_ Hsum]).
  assert (Hi : 0 <= interest_due d self)
    by (rewrite interest_due_sum_interest; now apply sum_interest_nonneg).
  assert (HB : 0 <= overall_advance_balance self)
    by (rewrite Hsum; now apply sum_current_nonneg).
  rewrite Zle_Qle in Hamount. change (inject_Z 0) with 0 in Hamount.
  unfold self', exec. rewrite process_payment_spec. cbn [snd]. unfold paid.
  destruct (Qgtb (inject_Z (event_amount payment) - interest_due d self) 0) eqn:Hr.
  - destruct (Qgtb (inject_Z (event_amount payment) - interest_due d self
                    - overall_advance_balance self) 0) eqn:Hs;
      cbn [swept interest_settled set_overall_payments_for_future
           set_overall_advance_balance overall_payments_for_future
           overall_advance_balance overall_interest_paid];
      destruct (Qgtb (inject_Z (event_amount payment)) (interest_due d self));
      try apply Qgtb_true in Hr; try apply Qgtb_true in Hs; try apply Qgtb_false in Hs;
      repeat split; lra.
  - cbn [interest_settled overall_payments_for_future overall_advance_balance
         overall_interest_paid].
    destruct (Qgtb (inject_Z (event_amount payment)) (interest_due d self));
      repeat split; lra.
Qed.

Lemma payment_monotone_witness :
  let self := exec (process_events scenario_overpaid day0) init in
  let self' := exec (process_payment (mkEvent 3 "payment" 10 "2021-01-11") day10) self in
  overall_interest_paid self <= overall_interest_paid self'
  /\ overall_payments_for_future self <= overall_payments_for_future self'
  /\ overall_advance_balance self' <= overall_advance_balance self.
Proof.
  apply (payment_monotone scenario_overpaid day0 (mkEvent 3 "payment" 10 "2021-01-11") day10).
  - exact amount_ok_scenario_overpaid.
  - simpl. lia.
Defined.

(** ** The event loop *)

(** One round of the loop: a malformed date stops it, any other event
    leaves the state [dispatched] computes and the loop goes on. *)
Lemma process_events_cons event events end_datetime self :
  process_events (event :: events) end_datetime self =
  match strptime (event_date event) with
  | Some _ => process_events events end_datetime (dispatched event end_datetime self)
  | None => (Raised ValueError, self)
  end.
Proof.
  cbn [process_events]. unfold bind. rewrite process_event_spec.
  unfold dispatched.
  destruct (strptime (event_date event)); reflexivity.
Qed.

Lemma process_events_returns events end_datetime : forall self,
  Forall parses events ->
  fst (process_events events end_datetime self) = Returned tt.
Proof.
  induction events as [|event events IH]; intros self Hok; [reflexivity|].
  inversion Hok as [|? ? Hev Hrest]; subst.
  rewrite process_events_cons. unfold parses in Hev.
  destruct (strptime (event_date event)); [now apply IH | contradiction].
Qed.


Lemma process_events_app events1 events2 end_datetime self :
  Forall parses events1 ->
  process_events (events1 ++ events2) end_datetime self =
  process_events events2 end_datetime (exec (process_events events1 end_datetime) self).
Proof.
  revert self. induction events1 as [|event events1 IH]; intros self Hok.
  - reflexivity.
  - inversion Hok as [|? ? Hev Hrest]; subst.
    cbn [app]. unfold exec. rewrite !process_events_cons.
    unfold parses in Hev.
    destruct (strptime (event_date event)); [|contradiction].
    now apply IH.
Qed.

(** X6.  The loop fails fast and rolls nothing back: at the first event
    whose date is malformed it raises [ValueError], the events before it
    have been processed, and no event after it is. *)
Theorem process_events_fail_fast (before after : list Event) (bad : Event)
    (end_datetime : datetime) (self : AdvanceStats) :
  Forall parses before ->
  strptime (event_date bad) = None ->
  process_events (before ++ bad :: after) end_datetime self =
  (Raised ValueError, exec (process_events before end_datetime) self).
Proof.
  intros Hok Hbad.
  rewrite process_events_app by exact Hok.
  rewrite process_events_cons, Hbad. reflexivity.
Qed.

Lemma process_events_fail_fast_witness :
  process_events
    ([mkEvent 1 "advance" 1000 "2021-01-01"]
       ++ mkEvent 2 "payment" 10 "2021-02-30" :: [mkEvent 3 "payment" 20 "2021-03-01"])
    day10 init
  = (Raised ValueError,
     exec (process_events [mkEvent 1 "advance" 1000 "2021-01-01"] day10) init).
Proof.
  apply (process_events_fail_fast [mkEvent 1 "advance" 1000 "2021-01-01"]
           [mkEvent 3 "payment" 20 "2021-03-01"] (mkEvent 2 "payment" 10 "2021-02-30")
           day10 init).
  - repeat constructor. unfold parses. simpl. discriminate.
  - reflexivity.
Defined.

(** An event that is not [effective] parses and leaves the state alone. *)
Lemma dispatched_not_effective event end_datetime self :
  effective end_datetime event = false ->
  strptime (event_date event) <> None
  /\ dispatched event end_datetime self = self.
Proof.
  unfold effective, dispatched.
  destruct (strptime (event_date event)) as [d|]; [|discriminate].
  intros H. split; [discriminate|].
  destruct (end_datetime <? d)%Z; [reflexivity|].
  cbn [negb andb] in H. apply orb_false_iff in H. destruct H as [H1 H2].
  now rewrite H1, H2.
Qed.

(** X7.  Events dated after the cutoff and events of a kind other than
    advance or payment can be taken out of the sequence: the loop returns
    or raises the same, and leaves the same state. *)
Theorem process_events_ignores_dropped_events (events : list Event)
    (end_datetime : datetime) (self : AdvanceStats) :
  process_events (filter (effective end_datetime) events) end_datetime self
  = process_events events end_datetime self.
Proof.
  revert self. induction events as [|event events IH]; intros self; [reflexivity|].
  cbn [filter].
  destruct (effective end_datetime event) eqn:Heff.
  - rewrite !process_events_cons.
    destruct (strptime (event_date event)); [apply IH | reflexivity].
  - destruct (dispatched_not_effective event end_datetime self Heff) as [Hparse Hsame].
    rewrite process_events_cons.
    destruct (strptime (event_date event)); [|contradiction].
    rewrite Hsame. apply IH.
Qed.

(** ** The ledger identity *)







(** ** The summary *)

(** The sweep stamps every advance it walks or passes with the date of the
    event. *)
Lemma sweep_dates d l : forall r,
  Forall (fun a => last_modified_date a = d) (fst (sweep d r l)).
Proof.
  assert (Hreset : forall l', Forall (fun a => last_modified_date a = d)
                                (map (set_last_modified_date d) l')).
  { induction l' as [|a l' IH]; simpl; constructor; auto. }
  induction l as [|a l IH]; intros r; [constructor|].
  sweep_cases d r a l; cbn [fst]; try apply Hreset.
  - constructor; [reflexivity | apply IH].
  - constructor; [reflexivity | apply Hreset].
Qed.

Lemma advances_paid_swept p d self :
  Qgtb (inject_Z (event_amount p) - interest_due d self) 0 = true ->
  advances (paid p d self)
  = firstn (first_not_fully_paid_advance_index self) (advances self)
    ++ fst (sweep d (inject_Z (event_amount p) - interest_due d self)
              (skipn (first_not_fully_paid_advance_index self) (advances self)))
  /\ first_not_fully_paid_advance_index (paid p d self)
     = (first_not_fully_paid_advance_index self
        + snd (sweep d (inject_Z (event_amount p) - interest_due d self)
                 (skipn (first_not_fully_paid_advance_index self) (advances self))))%nat.
Proof.
  intros Hr. unfold paid. rewrite Hr.
  destruct (Qgtb (inject_Z (event_amount p) - interest_due d self
                  - overall_advance_balance self) 0); split; reflexivity.
Qed.

Lemma advances_paid_absorbed p d self :
  Qgtb (inject_Z (event_amount p) - interest_due d self) 0 = false ->
  advances (paid p d self) = advances self
  /\ first_not_fully_paid_advance_index (paid p d self)
     = first_not_fully_paid_advance_index self.
Proof.
  intros Hr. unfold paid. rewrite Hr. split; reflexivity.
Qed.





(** X10.  How the summary fails.  A malformed cutoff date raises
    [ValueError] before any event is processed.  With the cutoff
    9999-12-31, the last day a [datetime] can hold, the events are
    processed and the step to the day after then raises [OverflowError]:
    the state keeps what the loop did, and no summary is returned. *)
Theorem get_advances_summary_failures (events : list Event) (end_date : string)
    (self : AdvanceStats) :
  (strptime end_date = None ->
     get_advances_summary events end_date self = (Raised ValueError, self))
  /\ (strptime end_date = Some max_ordinal ->
      Forall parses events ->
      get_advances_summary events end_date self
      = (Raised OverflowError, exec (process_events events max_ordinal) self)).
Proof.
  split.
  - intros Hparse. unfold get_advances_summary, bind, parse_date.
    rewrite Hparse. reflexivity.
  - intros Hparse Hok. unfold get_advances_summary, bind, parse_date.
    rewrite Hparse. unfold ret at 1.
    pose proof (process_events_returns events max_ordinal self Hok) as Hret.
    unfold exec.
    destruct (process_events events max_ordinal self) as [o s]. cbn [fst snd] in *.
    subst o. reflexivity.
Qed.

Lemma get_advances_summary_failures_witness :
  get_advances_summary scenario_A "2021-02-30" init = (Raised ValueError, init)
  /\ get_advances_summary scenario_A "9999-12-31" init
     = (Raised OverflowError, exec (process_events scenario_A max_ordinal) init).
Proof.
  split.
  - apply (get_advances_summary_failures scenario_A "2021-02-30" init). reflexivity.
  - apply (get_advances_summary_failures scenario_A "9999-12-31" init).
    + reflexivity.
    + repeat constructor; unfold parses; simpl; discriminate.
Defined.

(** ** Overpayment *)




(** ** The list of advances only grows *)

Lemma Forall2_same {A} (R : A -> A -> Prop) (l : list A) :
  (forall a, R a a) -> Forall2 R l l.
Proof. intros H. induction l; constructor; auto. Qed.

Lemma Forall2_trans {A} (R : A -> A -> Prop) :
  (forall a b c, R a b -> R b c -> R a c) ->
  forall l1 l2 l3, Forall2 R l1 l2 -> Forall2 R l2 l3 -> Forall2 R l1 l3.
Proof.
  intros Htrans l1 l2 l3 H12. revert l3.
  induction H12 as [|a b l1 l2 Hab _ IH]; intros l3 H23; inversion H23; subst.
  - constructor.
  - constructor; [eapply Htrans; eauto | now apply IH].
Qed.

Lemma kept_refl R l : (forall a, R a a) -> kept R l l.
Proof.
  intros H. exists l, []. split; [now rewrite app_nil_r | now apply Forall2_same].
Qed.

Lemma kept_trans R l1 l2 l3 :
  (forall a b c, R a b -> R b c -> R a c) ->
  kept R l1 l2 -> kept R l2 l3 -> kept R l1 l3.
Proof.
  intros Htrans (u1 & n1 & -> & H1) (u2 & n2 & -> & H2).
  apply Forall2_app_inv_l in H2. destruct H2 as (u2a & u2b & Ha & Hb & ->).
  exists u2a, (u2b ++ n2). split; [now rewrite app_assoc|].
  eapply Forall2_trans; eauto.
Qed.

Lemma same_identity_refl a : same_identity a a.
Proof. repeat split. Qed.

Lemma same_identity_trans a b c :
  same_identity a b -> same_identity b c -> same_identity a c.
Proof.
  intros (H1 & H2 & H3 & H4) (K1 & K2 & K3 & K4).
  repeat split; congruence.
Qed.

Lemma sweep_same_identity d l : forall r, Forall2 same_identity l (fst (sweep d r l)).
Proof.
  assert (Hreset : forall l', Forall2 same_identity l' (map (set_last_modified_date d) l')).
  { induction l' as [|a l' IH]; simpl; constructor; auto. repeat split. }
  induction l as [|a l IH]; intros r; [constructor|].
  sweep_cases d r a l; cbn [fst]; try apply Hreset.
  - constructor; [repeat split | apply IH].
  - constructor; [repeat split | apply Hreset].
Qed.

(** What a step of the engine does to the list, for a relation [R] that
    the sweep keeps on the advances from the cursor on. *)
Lemma dispatched_kept (R : Advance -> Advance -> Prop) event end_datetime self :
  (forall a, R a a) ->
  (forall d r,
     Forall2 R (skipn (first_not_fully_paid_advance_index self) (advances self))
       (fst (sweep d r (skipn (first_not_fully_paid_advance_index self)
                          (advances self))))) ->
  kept R (advances self) (advances (dispatched event end_datetime self)).
Proof.
  intros Hrefl Hsweep. unfold dispatched.
  destruct (strptime (event_date event)) as [d|]; [|now apply kept_refl].
  destruct (end_datetime <? d)%Z; [now apply kept_refl|].
  destruct (String.eqb (event_type event) ADVANCE_EVENT).
  - unfold issued.
    destruct (Qgtb (overall_payments_for_future self) 0);
      [destruct (Qgtb (overall_payments_for_future self
                       - inject_Z (initial_amount (advance_of_event event d))) 0)|];
      cbn [advances]; eexists; eexists;
      (split; [reflexivity | now apply Forall2_same]).
  - destruct (String.eqb (event_type event) PAYMENT_EVENT); [|now apply kept_refl].
    destruct (Qgtb (inject_Z (event_amount event) - interest_due d self) 0) eqn:Hr.
    + destruct (advances_paid_swept event d self Hr) as [-> _].
      eexists; exists []. split; [now rewrite app_nil_r|].
      rewrite <- (firstn_skipn (first_not_fully_paid_advance_index self) (advances self))
        at 1.
      apply Forall2_app; [now apply Forall2_same | apply Hsweep].
    + destruct (advances_paid_absorbed event d self Hr) as [-> _].
      now apply kept_refl.
Qed.

Lemma dispatched_cursor_grows event end_datetime self :
  (first_not_fully_paid_advance_index self
   <= first_not_fully_paid_advance_index (dispatched event end_datetime self))%nat.
Proof.
  unfold dispatched.
  destruct (strptime (event_date event)) as [d|]; [|lia].
  destruct (end_datetime <? d)%Z; [lia|].
  destruct (String.eqb (event_type event) ADVANCE_EVENT).
  - unfold issued.
    destruct (Qgtb (overall_payments_for_future self) 0);
      [destruct (Qgtb (overall_payments_for_future self
                       - inject_Z (initial_amount (advance_of_event event d))) 0)|];
      cbn [first_not_fully_paid_advance_index]; lia.
  - destruct (String.eqb (event_type event) PAYMENT_EVENT); [|lia].
    destruct (Qgtb (inject_Z (event_amount event) - interest_due d self) 0) eqn:Hr.
    + destruct (advances_paid_swept event d self Hr) as [_ ->]. lia.
    + destruct (advances_paid_absorbed event d self Hr) as [_ ->]. lia.
Qed.

(** X12.  Whatever the events and the state they start from, the loop
    never removes or reorders an advance and never changes the identifier,
    the type, the initial amount or the date it was created with: the list
    it leaves is the list it found, advance by advance, followed by the
    advances issued since.  The cursor never moves back. *)
Theorem advances_append_only (events : list Event) (end_datetime : datetime)
    (self : AdvanceStats) :
  kept same_identity (advances self)
    (advances (exec (process_events events end_datetime) self))
  /\ (first_not_fully_paid_advance_index self
      <= first_not_fully_paid_advance_index
           (exec (process_events events end_datetime) self))%nat.
Proof.
  revert self. induction events as [|event events IH]; intros self.
  - split; [apply kept_refl, same_identity_refl | apply Nat.le_refl].
  - unfold exec in *. rewrite process_events_cons.
    pose proof (dispatched_kept same_identity event end_datetime self
                  same_identity_refl
                  (fun d r => sweep_same_identity d _ r)) as Hstep.
    pose proof (dispatched_cursor_grows event end_datetime self) as Hcur.
    unfold dispatched in Hstep, Hcur |- *.
    destruct (strptime (event_date event)) as [d|].
    + destruct (IH (if (end_datetime <? d)%Z then self
                    else if String.eqb (event_type event) ADVANCE_EVENT
                         then issued (advance_of_event event d) self
                         else if String.eqb (event_type event) PAYMENT_EVENT
                              then paid event d self else self)) as [Hk Hc].
      split; [|lia].
      eapply kept_trans; [exact same_identity_trans | exact Hstep | exact Hk].
    + split; [apply kept_refl, same_identity_refl | apply Nat.le_refl].
Qed.





(** ** Interest after a payment *)

Lemma fold_accrue_same_day d l : forall total,
  Forall (fun a => last_modified_date a = d) l ->
  fold_left (accrue d) l total = total.
Proof.
  induction l as [|a l IH]; intros total Hl; [reflexivity|].
  inversion Hl as [|? ? Ha Hl']; subst. cbn [fold_left].
  rewrite IH by exact Hl'.
  unfold accrue. rewrite Z.ltb_irrefl, Z.sub_diag. cbn [orb Z.eqb].
  destruct (Qeq_bool (current_amount a) 0); reflexivity.
Qed.

Lemma skipn_app_beyond {A} n (l1 l2 : list A) :
  (length l1 <= n)%nat -> skipn n (l1 ++ l2) = skipn (n - length l1) l2.
Proof.
  intros H. rewrite skipn_app, skipn_all2 by exact H. reflexivity.
Qed.

(** X14.  Right after a payment that exceeds the interest due, no interest
    is due at the date of that payment: the sweep has stamped every advance
    from the cursor on with that date. *)
Theorem no_interest_after_payment (payment : Event) (d : datetime) (self : AdvanceStats) :
  interest_due d self < inject_Z (event_amount payment) ->
  get_overall_interest d (exec (process_payment payment d) self)
  = (Returned 0, exec (process_payment payment d) self).
Proof.
  intros Hlt.
  assert (Hr : Qgtb (inject_Z (event_amount payment) - interest_due d self) 0 = true)
    by (apply Qgtb_true; lra).
  rewrite get_overall_interest_spec. f_equal. f_equal.
  unfold exec. rewrite process_payment_spec. cbn [snd].
  unfold interest_due at 1.
  destruct (advances_paid_swept payment d self Hr) as [-> ->].
  rewrite skipn_app_beyond.
  - apply fold_accrue_same_day. apply Forall_drop. apply sweep_dates.
  - pose proof (firstn_le_length (first_not_fully_paid_advance_index self) (advances self)).
    lia.
Qed.

Lemma no_interest_after_payment_witness :
  get_overall_interest day10
    (exec (process_payment (mkEvent 3 "payment" 1200 "2021-01-11") day10) two_advances)
  = (Returned 0,
     exec (process_payment (mkEvent 3 "payment" 1200 "2021-01-11") day10) two_advances).
Proof.
  apply (no_interest_after_payment (mkEvent 3 "payment" 1200 "2021-01-11") day10
           two_advances).
  vm_compute. reflexivity.
Defined.




(** ** The reduction sweep on its own *)

(** X16.  What [reduce_advances] never touches: whatever the state, the
    amount and the date, it returns normally, leaves the four totals as
    they were, keeps the length of the list and every advance before the
    cursor, keeps the identity of every advance, and does not move the
    cursor back. *)
Theorem reduce_advances_frame (amount : Q) (d : datetime) (self : AdvanceStats) :
  let self' := exec (reduce_advances amount d) self in
  result (reduce_advances amount d) self = Returned tt
  /\ overall_advance_balance self' = overall_advance_balance self
  /\ overall_interest_payable_balance self' = overall_interest_payable_balance self
  /\ overall_interest_paid self' = overall_interest_paid self
  /\ overall_payments_for_future self' = overall_payments_for_future self
  /\ length (advances self') = length (advances self)
  /\ firstn (first_not_fully_paid_advance_index self) (advances self')
     = firstn (first_not_fully_paid_advance_index self) (advances self)
  /\ Forall2 same_identity (advances self) (advances self')
  /\ (first_not_fully_paid_advance_index self
      <= first_not_fully_paid_advance_index self')%nat.
Proof.
  intros self'. unfold self', exec, result. rewrite reduce_advances_swept.
  cbn [fst snd swept overall_advance_balance overall_interest_payable_balance
       overall_interest_paid overall_payments_for_future advances
       first_not_fully_paid_advance_index].
  set (i := first_not_fully_paid_advance_index self).
  repeat (split; [reflexivity|]).
  split; [|split; [|split; [|lia]]].
  - rewrite length_app, sweep_length.
    rewrite <- (firstn_skipn i (advances self)) at 3. now rewrite length_app.
  - destruct (Nat.le_gt_cases i (length (advances self))) as [Hle|Hgt].
    + rewrite firstn_app, firstn_firstn, Nat.min_id.
      rewrite firstn_length_le by exact Hle.
      rewrite Nat.sub_diag. cbn [firstn]. apply app_nil_r.
    + rewrite skipn_all2 by lia. cbn [sweep fst].
      now rewrite app_nil_r, firstn_firstn, Nat.min_id.
  - rewrite <- (firstn_skipn i (advances self)) at 1.
    apply Forall2_app; [apply Forall2_same, same_identity_refl | apply sweep_same_identity].
Qed.



(** ** Dates under date order *)

Lemma sweep_not_moved_back d l : forall r,
  Forall (fun a => (last_modified_date a <= d)%Z) l ->
  Forall2 not_moved_back l (fst (sweep d r l)).
Proof.
  assert (Hreset : forall l', Forall (fun a => (last_modified_date a <= d)%Z) l' ->
                              Forall2 not_moved_back l' (map (set_last_modified_date d) l')).
  { induction 1 as [|a l' Ha _ IH]; simpl; constructor; auto. }
  induction l as [|a l IH]; intros r Hl; [constructor|].
  inversion Hl as [|? ? Ha Hl']; subst.
  sweep_cases d r a l; cbn [fst]; try (now apply Hreset).
  - constructor; [exact Ha | now apply IH].
  - constructor; [exact Ha | now apply Hreset].
Qed.

Lemma dispatched_dated_by event end_datetime self bound d :
  strptime (event_date event) = Some d ->
  (bound <= d)%Z ->
  Forall (fun a => (last_modified_date a <= bound)%Z) (advances self) ->
  Forall (fun a => (last_modified_date a <= d)%Z)
    (advances (dispatched event end_datetime self))
  /\ kept not_moved_back (advances self) (advances (dispatched event end_datetime self)).
Proof.
  intros Hparse Hbound Hdated.
  assert (Hd : Forall (fun a => (last_modified_date a <= d)%Z) (advances self)).
  { eapply Forall_impl; [|exact Hdated]. intros a Ha. cbv beta in Ha. lia. }
  assert (Hrefl : forall a, not_moved_back a a) by (intros a; apply Z.le_refl).
  unfold dispatched. rewrite Hparse.
  destruct (end_datetime <? d)%Z; [split; [exact Hd | now apply kept_refl]|].
  destruct (String.eqb (event_type event) ADVANCE_EVENT).
  - unfold issued.
    destruct (Qgtb (overall_payments_for_future self) 0);
      [destruct (Qgtb (overall_payments_for_future self
                       - inject_Z (initial_amount (advance_of_event event d))) 0)|];
      cbn [advances];
      (split; [apply Forall_app; split; [exact Hd | constructor; [apply Z.le_refl|constructor]]
              | eexists; eexists; split; [reflexivity | now apply Forall2_same]]).
  - destruct (String.eqb (event_type event) PAYMENT_EVENT);
      [|split; [exact Hd | now apply kept_refl]].
    destruct (Qgtb (inject_Z (event_amount event) - interest_due d self) 0) eqn:Hr.
    + destruct (advances_paid_swept event d self Hr) as [-> _]. split.
      * apply Forall_app. split; [now apply Forall_take|].
        eapply Forall_impl; [|apply sweep_dates].
        intros a Ha. cbv beta in Ha. rewrite Ha. apply Z.le_refl.
      * eexists; exists []. split; [now rewrite app_nil_r|].
        rewrite <- (firstn_skipn (first_not_fully_paid_advance_index self) (advances self))
          at 1.
        apply Forall2_app; [now apply Forall2_same|].
        apply sweep_not_moved_back. now apply Forall_drop.
    + destruct (advances_paid_absorbed event d self Hr) as [-> _].
      split; [exact Hd | now apply kept_refl].
Qed.

Lemma process_events_not_moved_back end_datetime events : forall bound self,
  dates_from bound events ->
  Forall (fun a => (last_modified_date a <= bound)%Z) (advances self) ->
  kept not_moved_back (advances self)
    (advances (exec (process_events events end_datetime) self)).
Proof.
  assert (Hrefl : forall a, not_moved_back a a) by (intros a; apply Z.le_refl).
  assert (Htrans : forall a b c, not_moved_back a b -> not_moved_back b c ->
                                 not_moved_back a c)
    by (unfold not_moved_back; intros; lia).
  induction events as [|event events IH]; intros bound self Hord Hdated.
  - now apply kept_refl.
  - cbn [dates_from] in Hord. unfold exec in *. rewrite process_events_cons.
    destruct (strptime (event_date event)) as [d|] eqn:Hparse; [|contradiction].
    destruct Hord as [Hbound Hrest].
    destruct (dispatched_dated_by event end_datetime self bound d Hparse Hbound Hdated)
      as [Hd Hk].
    eapply kept_trans; [exact Htrans | exact Hk | exact (IH d _ Hrest Hd)].
Qed.

Lemma dates_from_app end_datetime events1 : forall events2 bound self,
  dates_from bound (events1 ++ events2) ->
  Forall (fun a => (last_modified_date a <= bound)%Z) (advances self) ->
  Forall parses events1
  /\ exists bound',
       dates_from bound' events2
       /\ Forall (fun a => (last_modified_date a <= bound')%Z)
            (advances (exec (process_events events1 end_datetime) self)).
Proof.
  induction events1 as [|event events1 IH]; intros events2 bound self Hord Hdated.
  - split; [constructor|]. exists bound. split; assumption.
  - cbn [app dates_from] in Hord. unfold exec in *. rewrite process_events_cons.
    destruct (strptime (event_date event)) as [d|] eqn:Hparse; [|contradiction].
    destruct Hord as [Hbound Hrest].
    destruct (dispatched_dated_by event end_datetime self bound d Hparse Hbound Hdated)
      as [Hd _].
    destruct (IH events2 d _ Hrest Hd) as [Hp Hex].
    split; [|exact Hex].
    constructor; [unfold parses; congruence | exact Hp].
Qed.

(** X18.  When the events come in non-decreasing date order, the date
    interest is counted from never moves back: between any two moments of
    the run, each advance present at the first is still there at the
    second, in the same place, with a [last_modified_date] no earlier. *)
Theorem last_modified_date_never_moves_back (events1 events2 : list Event)
    (end_datetime : datetime) :
  date_ordered (events1 ++ events2) ->
  kept not_moved_back
    (advances (exec (process_events events1 end_datetime) init))
    (advances (exec (process_events (events1 ++ events2) end_datetime) init)).
Proof.
  intros [bound Hord].
  destruct (dates_from_app end_datetime events1 events2 bound init Hord)
    as [Hparse (bound' & Hord' & Hdated)]; [constructor|].
  unfold exec at 2. rewrite process_events_app by exact Hparse.
  exact (process_events_not_moved_back end_datetime events2 bound' _ Hord' Hdated).
Qed.

Lemma last_modified_date_never_moves_back_witness :
  kept not_moved_back
    (advances (exec (process_events [mkEvent 1 "advance" 1000 "2021-01-01"] day10) init))
    (advances (exec (process_events
                       ([mkEvent 1 "advance" 1000 "2021-01-01"]
                          ++ [mkEvent 2 "payment" 1000 "2021-01-11"]) day10) init)).
Proof.
  apply (last_modified_date_never_moves_back [mkEvent 1 "advance" 1000 "2021-01-01"]
           [mkEvent 2 "payment" 1000 "2021-01-11"] day10).
  exists day0. vm_compute. repeat split; discriminate.
Defined.

(** ** Issuance *)



(** ** Interest on the outstanding total *)




(** ** An advance paid off to the unit *)

(** X21.  The cursor moves on only when the amount applied is strictly
    greater than what the advance owes.  When the amount applied is exactly
    what the advance at the cursor owes, that advance is brought to zero
    and dated at the event, the cursor stays on it, and the advances after
    it only have their dates reset. *)
Theorem exact_payoff_leaves_cursor (amount : Q) (d : datetime) (self : AdvanceStats)
    (a : Advance) :
  nth_error (advances self) (first_not_fully_paid_advance_index self) = Some a ->
  0 < amount ->
  current_amount a == amount ->
  let self' := exec (reduce_advances amount d) self in
  first_not_fully_paid_advance_index self' = first_not_fully_paid_advance_index self
  /\ advances self'
     = firstn (first_not_fully_paid_advance_index self) (advances self)
       ++ set_last_modified_date d (set_current_amount (current_amount a - amount) a)
       :: map (set_last_modified_date d)
            (skipn (S (first_not_fully_paid_advance_index self)) (advances self))
  /\ current_amount a - amount == 0.
Proof.
  intros Hnth Hpos Heq self'.
  unfold self', exec. rewrite reduce_advances_swept.
  cbn [snd swept advances first_not_fully_paid_advance_index].
  rewrite (skipn_nth_error _ _ _ Hnth).
  rewrite sweep_partial.
  - cbn [fst snd]. split; [lia|]. split; [reflexivity | lra].
  - now apply Qgtb_true.
  - apply Qgtb_false. lra.
Qed.

Lemma exact_payoff_leaves_cursor_witness :
  let self' := exec (reduce_advances 1000 day10) two_advances in
  first_not_fully_paid_advance_index self'
  = first_not_fully_paid_advance_index two_advances
  /\ advances self'
     = firstn (first_not_fully_paid_advance_index two_advances) (advances two_advances)
       ++ set_last_modified_date day10
            (set_current_amount
               (current_amount (mkAdvance 1 "advance" 1000 "2021-01-01" 1000 day0) - 1000)
               (mkAdvance 1 "advance" 1000 "2021-01-01" 1000 day0))
       :: map (set_last_modified_date day10)
            (skipn (S (first_not_fully_paid_advance_index two_advances))
               (advances two_advances))
  /\ current_amount (mkAdvance 1 "advance" 1000 "2021-01-01" 1000 day0) - 1000 == 0.
Proof.
  apply (exact_payoff_leaves_cursor 1000 day10 two_advances
           (mkAdvance 1 "advance" 1000 "2021-01-01" 1000 day0)).
  - reflexivity.
  - reflexivity.
  - reflexivity.
Defined.
